(** * Segment verification and ranged-loop providers of storj: a shallow embedding

    Sources embedded here:
    - [cmd/tools/segment-verify/process.go]:
      [Verify], [VerifyBatches], [convertAliasToNodeURL], [GetNodeInfo];
    - [satellite/metabase/rangedloop/providerdb.go]:
      [CreateRanges], [Iterate].

    Go's [int] is a 64-bit and [int32]/[uint32] a 32-bit machine integer; they
    are carried as [Z] and every conversion or increment writes its
    wrap-around out.  Maps are [gmap], alias sets are [gset], and the
    segments, which the Go code reaches through [*Segment] pointers, live in
    an explicit heap so that in-place mutation and aliasing are visible. *)

From Stdlib Require Import ZArith Lia String.
From stdpp Require Import base tactics option functions list gmap strings.

Local Open Scope Z_scope.

#[local] Set Warnings "-clear-no-such-hyp".

(** ** Machine integers *)

Module GoInt.

(** Two's complement reading of the low [w] bits of [z]. *)
Definition wrap_signed (w : Z) (z : Z) : Z :=
  (z + 2 ^ (w - 1)) mod 2 ^ w - 2 ^ (w - 1).

(** [int32(x)] *)
Definition int32 (z : Z) : Z := wrap_signed 32 z.
(** [uint32(x)] *)
Definition uint32 (z : Z) : Z := z mod 2 ^ 32.
(** arithmetic on [int] *)
Definition int (z : Z) : Z := wrap_signed 64 z.

Definition max_int : Z := 2 ^ 63 - 1.
Definition min_int : Z := - 2 ^ 63.
Definition max_int32 : Z := 2 ^ 31 - 1.
Definition min_int32 : Z := - 2 ^ 31.

(** [x++] and [x--] on an [int] *)
Definition incr (z : Z) : Z := int (z + 1).
Definition decr (z : Z) : Z := int (z - 1).

End GoInt.

(** ** Errors

    The error values of [github.com/zeebo/errs] as far as the code uses
    them: an error is a chain of classes around a root cause, [Class.Wrap]
    maps [nil] to [nil] (its documented contract) and any other error to a
    non-nil error of the class, and [Class.Has] looks for the class in the
    chain. *)

Module Errs.

Inductive error : Type :=
| New (msg : string)
| InClass (class : string) (cause : error).

#[global] Instance error_eq_dec : EqDecision error.
Proof. solve_decision. Defined.

(** A Go [error] value: [None] is [nil]. *)
Definition goerror : Type := option error.

Definition wrap_in (class : string) (e : error) : error :=
  match e with
  | InClass c _ => if String.eqb c class then e else InClass class e
  | New _ => InClass class e
  end.

Definition Wrap (class : string) (err : goerror) : goerror :=
  match err with
  | None => None
  | Some e => Some (wrap_in class e)
  end.

Fixpoint Has (class : string) (e : error) : bool :=
  match e with
  | New _ => false
  | InClass c cause => String.eqb c class || Has class cause
  end.

End Errs.

Import Errs.

(** ** Data model of [segment-verify] *)

Module SegmentVerify.

(** [metabase.NodeAlias], an [int32]. *)
Abbreviation NodeAlias := Z (only parsing).
(** [storj.NodeID], 32 bytes read as a number; the zero value is [0]. *)
Abbreviation NodeID := Z (only parsing).
(** A [*Segment]. *)
Abbreviation ptr := nat (only parsing).

(** [storj.NodeURL] *)
Record NodeURL : Type := mkNodeURL { ID : NodeID; Address : string }.

(** [storj.NodeURL{}] *)
Definition NodeURL_zero : NodeURL := mkNodeURL 0 EmptyString.

(** [NodeInfo] *)
Record NodeInfo : Type := mkNodeInfo { Version : string; NodeURL_of : NodeURL }.

(** [NodeInfo{}] *)
Definition NodeInfo_zero : NodeInfo := mkNodeInfo EmptyString NodeURL_zero.

(** What [overlay.Get] returns, reduced to the fields the code reads:
    [info.Id], [info.Address.Address] and [info.Version.Version]. *)
Record NodeDossier : Type :=
  mkNodeDossier { Id : NodeID; Address_Address : string; Version_Version : string }.

(** [metabase.AliasPiece] *)
Record AliasPiece : Type := mkAliasPiece { Number : Z; Alias : NodeAlias }.

(** [Segment]: the piece list and [Status.Retry] (an [int32]); [StreamID]
    stands for the catalog fields the code never touches. *)
Record Segment : Type :=
  mkSegment { StreamID : Z; AliasPieces : list AliasPiece; Status_Retry : Z }.

Definition set_AliasPieces (xs : list AliasPiece) (seg : Segment) : Segment :=
  mkSegment (StreamID seg) xs (Status_Retry seg).

Definition set_Status_Retry (r : Z) (seg : Segment) : Segment :=
  mkSegment (StreamID seg) (AliasPieces seg) r.

(** [Batch]: [Items] is a [[]*Segment]. *)
Record Batch : Type := mkBatch { Batch_Alias : NodeAlias; Items : list ptr }.

(** The fields of [ServiceConfig] the code reads, all [int]. *)
Record ServiceConfig : Type :=
  mkServiceConfig { Config_Check : Z; Config_Concurrency : Z; Config_MaxOffline : Z }.

(** [Service]: [aliasMap] stands for [*metabase.NodeAliasMap] (its method
    [Node] is the lookup), [priorityNodes] and [onlineNodes] are
    [NodeAliasSet]s, [offlineCount] is a [map[NodeAlias]int]. *)
Record Service : Type := mkService {
  config : ServiceConfig;
  aliasMap : gmap Z NodeID;
  aliasToNodeURL : gmap Z NodeURL;
  nodesVersionMap : gmap Z string;
  priorityNodes : gset Z;
  onlineNodes : gset Z;
  offlineCount : gmap Z Z
}.

Definition set_aliasMap (m : gmap Z NodeID) (s : Service) : Service :=
  mkService (config s) m (aliasToNodeURL s) (nodesVersionMap s)
            (priorityNodes s) (onlineNodes s) (offlineCount s).

Definition set_aliasToNodeURL (m : gmap Z NodeURL) (s : Service) : Service :=
  mkService (config s) (aliasMap s) m (nodesVersionMap s)
            (priorityNodes s) (onlineNodes s) (offlineCount s).

Definition set_nodesVersionMap (m : gmap Z string) (s : Service) : Service :=
  mkService (config s) (aliasMap s) (aliasToNodeURL s) m
            (priorityNodes s) (onlineNodes s) (offlineCount s).

Definition set_onlineNodes (o : gset Z) (s : Service) : Service :=
  mkService (config s) (aliasMap s) (aliasToNodeURL s) (nodesVersionMap s)
            (priorityNodes s) o (offlineCount s).

Definition set_offlineCount (m : gmap Z Z) (s : Service) : Service :=
  mkService (config s) (aliasMap s) (aliasToNodeURL s) (nodesVersionMap s)
            (priorityNodes s) (onlineNodes s) m.

(** Reading a Go map of [int]: a missing key reads as the zero value. *)
Definition count_of (m : gmap Z Z) (alias : NodeAlias) : Z := default 0 (m !! alias).

(** [aliasMap.Node(alias)] returns the node and whether it is known. *)
Definition Node (m : gmap Z NodeID) (alias : NodeAlias) : NodeID * bool :=
  match m !! alias with
  | Some id => (id, true)
  | None => (0, false)
  end.

(** The heap of segments: every pointer the code holds is valid. *)
Abbreviation Heap := (nat -> Segment) (only parsing).

(** The call trace: the calls [Verify] makes to the two passes' steps, in
    order (what the [mon.Task] of each function counts). *)
Inductive Call : Type :=
| CallCreateBatches (segments : list ptr)
| CallVerifyBatches (batches : list Batch).

Definition is_CallVerifyBatches (c : Call) : bool :=
  match c with CallVerifyBatches _ => true | CallCreateBatches _ => false end.

Definition is_CallCreateBatches (c : Call) : bool :=
  match c with CallCreateBatches _ => true | CallVerifyBatches _ => false end.

(** The error classes of the package. *)
Definition Error : string := "segment-verify".
Definition ErrNodeOffline : string := "node offline".

(** How a call ends: it returns, it panics, or it waits for ever. *)
Inductive Outcome (A : Type) : Type :=
| Returns (a : A)
| Panics
| Blocks.

Arguments Returns {A} a.
Arguments Panics {A}.
Arguments Blocks {A}.

(** The [context.Context] of a run as [limiter.Go] sees it: what
    [ctx.Err()] returns at the start of its k-th call, and whether the
    context is cancelled while that call waits for a slot. *)
Record CallContext : Type := mkCallContext {
  ctx_Err : nat -> goerror;
  ctx_Done : nat -> bool
}.

Section WithCollaborators.

(** The state of everything outside the process: the network, the nodes,
    the catalog. *)
Context {Ext : Type}.

(** The whole state one run acts on. *)
Record World : Type := mkWorld {
  svc : Service;
  heap : Heap;
  ext : Ext;
  trace : list Call
}.

Definition set_svc (s : Service) (w : World) : World :=
  mkWorld s (heap w) (ext w) (trace w).
Definition set_heap (h : Heap) (w : World) : World :=
  mkWorld (svc w) h (ext w) (trace w).
Definition set_ext (e : Ext) (w : World) : World :=
  mkWorld (svc w) (heap w) e (trace w).
Definition set_trace (t : list Call) (w : World) : World :=
  mkWorld (svc w) (heap w) (ext w) t.

(** The collaborators behind interfaces ([service.overlay],
    [service.metabase], [service.verifier]) and the batcher of the
    package, whose code is in another file.  Each may read and change
    the outside world; the verifier and the batcher also reach the
    segments through their pointers.  None of them can touch the
    service's caches and health maps. *)
Record Collaborators : Type := mkCollaborators {
  (** [service.overlay.Get(ctx, nodeID)] *)
  overlay_Get : NodeID -> Ext -> (NodeDossier * goerror) * Ext;
  (** [service.metabase.LatestNodesAliasMap(ctx)] *)
  metabase_LatestNodesAliasMap : Ext -> (gmap Z NodeID * goerror) * Ext;
  (** [service.verifier.Verify(ctx, alias, url, version, items, ignoreThrottle)] *)
  verifier_Verify :
    NodeAlias -> NodeURL -> string -> list ptr -> bool ->
    Heap -> Ext -> (Z * goerror) * Heap * Ext;
  (** [service.CreateBatches(ctx, segments)] *)
  service_CreateBatches :
    Service -> list ptr -> Heap -> (list Batch * goerror) * Heap
}.

Context (deps : Collaborators).

(** *** A state monad over [World] *)

Definition M (A : Type) : Type := World -> A * World.

#[global] Instance M_ret : MRet M := fun A a w => (a, w).
#[global] Instance M_bind : MBind M :=
  fun A B f m w => let '(a, w') := m w in f a w'.

Definition gets {A : Type} (f : World -> A) : M A := fun w => (f w, w).
Definition modify (f : World -> World) : M unit := fun w => (tt, f w).
Definition modify_svc (f : Service -> Service) : M unit :=
  modify (fun w => set_svc (f (svc w)) w).
Definition modify_heap (f : Heap -> Heap) : M unit :=
  modify (fun w => set_heap (f (heap w)) w).
Definition record_call (c : Call) : M unit :=
  modify (fun w => set_trace (trace w ++ [c]) w).

(** [for _, x := range xs { body x }] *)
Fixpoint for_range {A : Type} (xs : list A) (body : A -> M unit) : M unit :=
  match xs with
  | [] => mret tt
  | x :: rest => body x ;; for_range rest body
  end.

Definition call_overlay_Get (nodeID : NodeID) : M (NodeDossier * goerror) :=
  fun w => let '(r, e) := overlay_Get deps nodeID (ext w) in (r, set_ext e w).

Definition call_LatestNodesAliasMap : M (gmap Z NodeID * goerror) :=
  fun w => let '(r, e) := metabase_LatestNodesAliasMap deps (ext w) in (r, set_ext e w).

Definition call_verifier_Verify (alias : NodeAlias) (url : NodeURL) (version : string)
    (items : list ptr) (ignoreThrottle : bool) : M (Z * goerror) :=
  fun w =>
    let '(r, h, e) := verifier_Verify deps alias url version items ignoreThrottle
                                      (heap w) (ext w) in
    (r, set_ext e (set_heap h w)).

Definition call_CreateBatches (segments : list ptr) : M (list Batch * goerror) :=
  fun w =>
    let '(r, h) := service_CreateBatches deps (svc w) segments (heap w) in
    (r, set_trace (trace w ++ [CallCreateBatches segments]) (set_heap h w)).

(** *** The node alias resolver *)

(** [convertAliasToNodeURL].  The inner [ok] is the one [aliasMap.Node]
    returned; the test after [LatestNodesAliasMap] reads that same [ok], as
    the source does, and [err] in both early returns is the error of the
    fetch. *)
Definition convertAliasToNodeURL (alias : NodeAlias) : M (NodeURL * goerror) :=
  s ← gets svc;
  match aliasToNodeURL s !! alias with
  | Some nodeURL => mret (nodeURL, None)
  | None =>
    let from_nodeID (nodeID : NodeID) : M (NodeURL * goerror) :=
      '(info, err) ← call_overlay_Get nodeID;
      match err with
      | Some _ => mret (NodeURL_zero, Wrap Error err)
      | None =>
        modify_svc (fun s =>
          set_nodesVersionMap (<[alias := Version_Version info]> (nodesVersionMap s)) s) ;;
        let nodeURL := mkNodeURL (Id info) (Address_Address info) in
        modify_svc (fun s =>
          set_aliasToNodeURL (<[alias := nodeURL]> (aliasToNodeURL s)) s) ;;
        mret (nodeURL, None)
      end in
    let '(nodeID, ok) := Node (aliasMap s) alias in
    if negb ok then
      '(latest, err) ← call_LatestNodesAliasMap;
      if negb ok then mret (NodeURL_zero, Wrap Error err)
      else
        modify_svc (set_aliasMap latest) ;;
        let '(nodeID, ok) := Node latest alias in
        if negb ok then mret (NodeURL_zero, Wrap Error err)
        else from_nodeID nodeID
    else from_nodeID nodeID
  end.

(** [GetNodeInfo] *)
Definition GetNodeInfo (alias : NodeAlias) : M (NodeInfo * goerror) :=
  '(nodeURL, err) ← convertAliasToNodeURL alias;
  match err with
  | Some _ => mret (NodeInfo_zero, Wrap Error err)
  | None =>
    s ← gets svc;
    match nodesVersionMap s !! alias with
    | Some version => mret (mkNodeInfo version nodeURL, None)
    | None =>
      '(info, err) ← call_overlay_Get (ID nodeURL);
      match err with
      | Some _ => mret (NodeInfo_zero, Wrap Error err)
      | None =>
        modify_svc (fun s =>
          set_nodesVersionMap (<[alias := Version_Version info]> (nodesVersionMap s)) s) ;;
        mret (mkNodeInfo (Version_Version info) nodeURL, None)
      end
    end
  end.

(** *** Node health bookkeeping

    The two critical sections of [VerifyBatches], each run under [mu]. *)

(** [service.onlineNodes.Remove(alias)] *)
Definition onlineNodes_Remove (alias : NodeAlias) (s : Service) : Service :=
  set_onlineNodes (onlineNodes s ∖ {[alias]}) s.

(** [service.offlineCount[alias]++] *)
Definition offlineCount_incr (alias : NodeAlias) (s : Service) : Service :=
  set_offlineCount
    (<[alias := GoInt.incr (count_of (offlineCount s) alias)]> (offlineCount s)) s.

(** [service.offlineCount[alias]--] *)
Definition offlineCount_decr (alias : NodeAlias) (s : Service) : Service :=
  set_offlineCount
    (<[alias := GoInt.decr (count_of (offlineCount s) alias)]> (offlineCount s)) s.

(** The block taken when [ErrNodeOffline.Has(err)]. *)
Definition on_node_offline (alias : NodeAlias) (verifiedCount : Z) (s : Service) : Service :=
  if verifiedCount =? 0 then onlineNodes_Remove alias s
  else
    let s' := offlineCount_incr alias s in
    if (0 <? Config_MaxOffline (config s'))
       && (Config_MaxOffline (config s') <=? count_of (offlineCount s') alias)
    then onlineNodes_Remove alias s'
    else s'.

(** The block taken when the verifier returned no error. *)
Definition on_batch_success (alias : NodeAlias) (s : Service) : Service :=
  if 0 <? count_of (offlineCount s) alias then offlineCount_decr alias s else s.

(** What one batch's outcome does to the service. *)
Definition reconcile (alias : NodeAlias) (verifiedCount : Z) (err : goerror)
    (s : Service) : Service :=
  match err with
  | Some e =>
    if Has ErrNodeOffline e then on_node_offline alias verifiedCount s
    else s
  | None => on_batch_success alias s
  end.

(** The function handed to [limiter.Go] for one batch. *)
Definition verify_task (batch : Batch) (info : NodeInfo) (ignoreThrottle : bool) : M unit :=
  '(verifiedCount, err) ←
    call_verifier_Verify (Batch_Alias batch) (NodeURL_of info) (Version info)
                         (Items batch) ignoreThrottle;
  modify_svc (reconcile (Batch_Alias batch) verifiedCount err).

(** The loop of [VerifyBatches].  The limiter runs the tasks as goroutines;
    here each task runs to its end where it is started, in batch order,
    which is the schedule of a limiter of one slot under a context that is
    not cancelled.  The tasks touch the health maps only inside the critical
    sections above, and the resolver's caches not at all. *)
Fixpoint VerifyBatches_loop (batches : list Batch) : M goerror :=
  match batches with
  | [] => mret None
  | batch :: rest =>
    '(info, err) ← GetNodeInfo (Batch_Alias batch);
    match err with
    | Some _ => mret (Wrap Error err)
    | None =>
      ignoreThrottle ← gets (fun w =>
        bool_decide (Batch_Alias batch ∈ priorityNodes (svc w)));
      verify_task batch info ignoreThrottle ;;
      VerifyBatches_loop rest
    end
  end.

(** [VerifyBatches], for a limiter that has a slot and a context that is
    not cancelled; [VerifyBatches_limited] below has both. *)
Definition VerifyBatches (batches : list Batch) : M goerror :=
  record_call (CallVerifyBatches batches) ;;
  VerifyBatches_loop batches.

(** *** The limiter

    [sync2.Limiter] of the library storj.io/common bounds the number of
    tasks in flight: a channel of [n] slots, one taken by each running
    task. *)

(** [sync2.NewLimiter(n)]: [make(chan struct{}, n)], which panics on a
    negative size.  The limiter is its number of slots. *)
Definition NewLimiter (n : Z) : Outcome Z :=
  if n <? 0 then Panics else Returns n.

(** [limiter.Go(ctx, fn)], called while no task is running.  With a
    cancelled context it returns [false] and does not start [fn].
    Otherwise it waits for a free slot or for the context: with at least one
    slot there is a free one and [fn] starts, here running to its end as in
    [VerifyBatches_loop]; with no slot none ever comes free, and the call
    returns [false] if the context is cancelled while it waits and waits for
    ever if not. *)
Definition limiter_Go (limit : Z) (ctxErr : goerror) (ctxDone : bool) (fn : M unit)
    (w : World) : Outcome bool * World :=
  match ctxErr with
  | Some _ => (Returns false, w)
  | None =>
    if 0 <? limit then (Returns true, snd (fn w))
    else if ctxDone then (Returns false, w)
    else (Blocks, w)
  end.

(** [limiter.Wait()], called while no task is running: it returns. *)
Definition limiter_Wait (w : World) : Outcome unit * World := (Returns tt, w).

(** The loop of [VerifyBatches] with its limiter of [limit] slots, from the
    [k]-th call of [limiter.Go] on, and the [limiter.Wait()] after it.
    [VerifyBatches] does not look at what [limiter.Go] returns. *)
Fixpoint VerifyBatches_limited_loop (limit : Z) (ctx : CallContext) (k : nat)
    (batches : list Batch) (w : World) : Outcome goerror * World :=
  match batches with
  | [] =>
    match limiter_Wait w with
    | (Returns _, w') => (Returns None, w')
    | (Panics, w') => (Panics, w')
    | (Blocks, w') => (Blocks, w')
    end
  | batch :: rest =>
    let '(info, err, w1) := GetNodeInfo (Batch_Alias batch) w in
    match err with
    | Some _ => (Returns (Wrap Error err), w1)
    | None =>
      let ignoreThrottle := bool_decide (Batch_Alias batch ∈ priorityNodes (svc w1)) in
      match limiter_Go limit (ctx_Err ctx k) (ctx_Done ctx k)
                       (verify_task batch info ignoreThrottle) w1 with
      | (Returns _, w2) => VerifyBatches_limited_loop limit ctx (S k) rest w2
      | (Panics, w2) => (Panics, w2)
      | (Blocks, w2) => (Blocks, w2)
      end
    end
  end.

(** [VerifyBatches] with the limiter it makes from [config.Concurrency] and
    the context it is called with: lines 77 to 121 as they are.
    [VerifyBatches] above is this function when the limiter has a slot and
    the context is not cancelled. *)
Definition VerifyBatches_limited (ctx : CallContext) (batches : list Batch)
    (w : World) : Outcome goerror * World :=
  let w0 := snd (record_call (CallVerifyBatches batches) w) in
  match NewLimiter (Config_Concurrency (config (svc w0))) with
  | Returns limit => VerifyBatches_limited_loop limit ctx 0 batches w0
  | Panics => (Panics, w0)
  | Blocks => (Blocks, w0)
  end.

(** *** The retry pass *)

(** The swap loop of [Verify]:
    [for i, j := 0, len(xs)-1; i < j; i, j = i+1, j-1 { xs[i], xs[j] = xs[j], xs[i] }].
    Both elements are read before either is written.  An index out of range
    would panic; the loop never produces one.  It ends within [len(xs)]
    rounds, which is the fuel. *)
Fixpoint reverse_loop (fuel : nat) (i j : Z) (xs : list AliasPiece) : list AliasPiece :=
  match fuel with
  | O => xs
  | S fuel' =>
    if i <? j then
      match xs !! Z.to_nat i, xs !! Z.to_nat j with
      | Some xi, Some xj =>
        reverse_loop fuel' (i + 1) (j - 1) (<[Z.to_nat j := xi]> (<[Z.to_nat i := xj]> xs))
      | _, _ => xs
      end
    else xs
  end.

Definition reverse_in_place (xs : list AliasPiece) : list AliasPiece :=
  reverse_loop (length xs) 0 (Z.of_nat (length xs) - 1) xs.

(** Modelled from the spec: [removePriorityPieces], a method of [Service]
    whose code is not in the files at hand.  The spec (4.4, step 4) has it
    "strip any pieces belonging to nodes in the priority set"; the pieces
    that stay keep their order. *)
Definition removePriorityPieces (segment : ptr) : M unit :=
  priority ← gets (fun w => priorityNodes (svc w));
  modify_heap (fun h =>
    <[segment := set_AliasPieces
                   (filter (fun x => Alias x ∉ priority) (AliasPieces (h segment)))
                   (h segment)]> h).

(** The first loop of [Verify]: the retry budget of every segment. *)
Definition init_retry (segments : list ptr) : M unit :=
  for_range segments (fun segment =>
    check ← gets (fun w => Config_Check (config (svc w)));
    retryCount ←
      (if check =? 0
       then gets (fun w => Z.of_nat (length (AliasPieces (heap w segment))))
       else mret check);
    modify_heap (fun h =>
      <[segment := set_Status_Retry (GoInt.int32 retryCount) (h segment)]> h)).

(** The segments [Verify] collects after the first pass. *)
Definition retry_segments (h : Heap) (segments : list ptr) : list ptr :=
  filter (fun segment => 0 < Status_Retry (h segment)) segments.

(** The loop of [Verify] that prepares the retried segments. *)
Definition prepare_retry (retrySegments : list ptr) : M unit :=
  for_range retrySegments (fun segment =>
    modify_heap (fun h =>
      <[segment := set_AliasPieces (reverse_in_place (AliasPieces (h segment)))
                                   (h segment)]> h) ;;
    removePriorityPieces segment).

(** One pass of [Verify]: batching the given segments and verifying the
    batches.  The source has this sequence twice, for all segments and for
    the retried ones. *)
Definition Verify_pass (segments : list ptr) : M goerror :=
  '(batches, err) ← call_CreateBatches segments;
  match err with
  | Some _ => mret (Wrap Error err)
  | None =>
    err ← VerifyBatches batches;
    match err with
    | Some _ => mret (Wrap Error err)
    | None => mret None
    end
  end.

(** [Verify], from the point where the first pass has returned no error. *)
Definition Verify_retry (segments : list ptr) : M goerror :=
  retrySegments ← gets (fun w => retry_segments (heap w) segments);
  if (length retrySegments =? 0)%nat then mret None
  else
    check ← gets (fun w => Config_Check (config (svc w)));
    if check <=? 0 then mret None
    else
      prepare_retry retrySegments ;;
      Verify_pass retrySegments.

(** [Verify] *)
Definition Verify (segments : list ptr) : M goerror :=
  init_retry segments ;;
  err ← Verify_pass segments;
  match err with
  | Some _ => mret err
  | None => Verify_retry segments
  end.

End WithCollaborators.

(** *** What the properties speak of *)

(** Two states that differ at most in the resolver's caches and in the
    outside world. *)
Definition same_outside_caches {Ext : Type} (w w' : @World Ext) : Prop :=
  trace w' = trace w /\ heap w' = heap w /\
  config (svc w') = config (svc w) /\
  priorityNodes (svc w') = priorityNodes (svc w) /\
  onlineNodes (svc w') = onlineNodes (svc w) /\
  offlineCount (svc w') = offlineCount (svc w).

(** The state after the task of one batch, started in [w] with the node
    information [info]. *)
Definition after_task {Ext : Type} (deps : @Collaborators Ext)
    (batch : Batch) (info : NodeInfo) (w : @World Ext) : @World Ext :=
  snd (verify_task deps batch info
         (bool_decide (Batch_Alias batch ∈ priorityNodes (svc w))) w).

(** The state in which the loop of [VerifyBatches] starts. *)
Definition at_entry {Ext : Type} (batches : list Batch) (w : @World Ext) : @World Ext :=
  set_trace (trace w ++ [CallVerifyBatches batches]) w.

(** The error of [GetNodeInfo] for a batch, asked in state [w]. *)
Definition resolution_error {Ext : Type} (deps : @Collaborators Ext)
    (batch : Batch) (w : @World Ext) : goerror :=
  snd (fst (GetNodeInfo deps (Batch_Alias batch) w)).

(** The budget the first loop of [Verify] computes for a segment, before
    the conversion to [int32]. *)
Definition retryCount_of (check : Z) (seg : Segment) : Z :=
  if check =? 0 then Z.of_nat (length (AliasPieces seg)) else check.

(** The states between the steps of [Verify]. *)

(** After the first loop. *)
Definition after_init {Ext : Type} (segments : list nat) (w : @World Ext) : @World Ext :=
  snd (init_retry segments w).

(** After the first pass. *)
Definition after_first_pass {Ext : Type} (deps : @Collaborators Ext)
    (segments : list nat) (w : @World Ext) : @World Ext :=
  snd (Verify_pass deps segments (after_init segments w)).

(** The batches of the first pass. *)
Definition first_batches {Ext : Type} (deps : @Collaborators Ext)
    (segments : list nat) (w : @World Ext) : list Batch :=
  fst (fst (call_CreateBatches deps segments (after_init segments w))).

(** The segments to retry. *)
Definition retried {Ext : Type} (deps : @Collaborators Ext)
    (segments : list nat) (w : @World Ext) : list nat :=
  retry_segments (heap (after_first_pass deps segments w)) segments.

(** After the loop that prepares the retried segments. *)
Definition before_second_pass {Ext : Type} (deps : @Collaborators Ext)
    (segments : list nat) (w : @World Ext) : @World Ext :=
  snd (prepare_retry (retried deps segments w) (after_first_pass deps segments w)).

(** The batches of the second pass. *)
Definition retry_batches {Ext : Type} (deps : @Collaborators Ext)
    (segments : list nat) (w : @World Ext) : list Batch :=
  fst (fst (call_CreateBatches deps (retried deps segments w)
                               (before_second_pass deps segments w))).

(** Whether [Verify] goes on to a second pass: some segment still has a
    positive retry budget after the first pass, and the configured check
    count is positive. *)
Definition retry_wanted {Ext : Type} (deps : @Collaborators Ext)
    (segments : list nat) (w : @World Ext) : Prop :=
  (exists p : nat, p ∈ segments /\
     0 < Status_Retry (heap (after_first_pass deps segments w) p)) /\
  0 < Config_Check (config (svc w)).

(** A piece list as the retry loop leaves it. *)
Definition prepared (priority : gset Z) (seg : Segment) : Segment :=
  set_AliasPieces (filter (fun x => Alias x ∉ priority) (reverse (AliasPieces seg))) seg.

End SegmentVerify.

(** ** Data model of [rangedloop] *)

Module RangedLoop.

(** [uuid.UUID], 16 bytes read as a number; the zero value is [0]. *)
Abbreviation UUID := Z (only parsing).
(** [time.Time] *)
Abbreviation Time := Z (only parsing).

(** [UUIDRange]: a [nil] bound is [None]. *)
Record UUIDRange : Type := mkUUIDRange { Range_Start : option UUID; Range_End : option UUID }.

(** [metabase.IterateLoopSegments], the options of one catalog scan. *)
Record IterateLoopSegmentsOpts : Type := mkIterateLoopSegmentsOpts {
  BatchSize : Z;
  AsOfSystemTime : Time;
  StartStreamID : UUID;
  EndStreamID : UUID
}.

(** Modelled from the spec: [CreateUUIDRanges], whose code is not in the
    files at hand.  The spec (4.1) has it divide the 128-bit identifier space
    into [nRanges] contiguous intervals of about the same size, the first
    with [start = nil] and the last with [end = nil], and fail only on an
    invalid [nRanges] (≤ 0).  Its parameter is a [uint32]. *)
Definition CreateUUIDRanges (nRanges : Z) : list UUIDRange * goerror :=
  if nRanges <=? 0 then ([], Some (New "number of ranges must be more than 0"))
  else
    let step := 2 ^ 128 / nRanges in
    (map (fun i : nat =>
            mkUUIDRange
              (if (i =? 0)%nat then None else Some (Z.of_nat i * step))
              (if Z.of_nat i + 1 =? nRanges then None else Some ((Z.of_nat i + 1) * step)))
         (seq 0 (Z.to_nat nRanges)),
     None).

Section WithRows.

(** A catalog row: [metabase.LoopSegmentEntry], which [segmentloop.Segment]
    converts without change. *)
Context {Row : Type}.

(** [*metabase.DB] as far as the providers use it: the rows, in primary-key
    order, that a scan with the given options yields before [Next] returns
    false. *)
Definition DB : Type := IterateLoopSegmentsOpts -> list Row.

(** [MetabaseRangeSplitter] *)
Record MetabaseRangeSplitter : Type :=
  mkMetabaseRangeSplitter { splitter_db : DB; splitter_batchSize : Z }.

(** [MetabaseSegmentProvider] *)
Record MetabaseSegmentProvider : Type := mkMetabaseSegmentProvider {
  db : DB;
  uuidRange : UUIDRange;
  asOfSystemTime : Time;
  batchSize : Z
}.

(** [CreateRanges]; [now] is what [time.Now()] returns. *)
Definition CreateRanges (provider : MetabaseRangeSplitter) (nRanges batchSize : Z)
    (now : Time) : list MetabaseSegmentProvider * goerror :=
  let '(uuidRanges, err) := CreateUUIDRanges (GoInt.uint32 nRanges) in
  match err with
  | Some _ => ([], err)
  | None =>
    let asOfSystemTime := now in
    let rangeProviders :=
      foldl (fun rangeProviders uuidRange =>
               rangeProviders ++
                 [mkMetabaseSegmentProvider (splitter_db provider) uuidRange
                                            asOfSystemTime batchSize])
            [] uuidRanges in
    (rangeProviders, err)
  end.

(** The run's [context.Context] as the loop sees it: what [ctx.Err()]
    returns at the k-th iteration. *)
Definition RunContext : Type := nat -> goerror.

(** What the loop of [Iterate] does, in order: each [ctx.Err()] with its
    result, each call of [fn] with the batch handed over and its result. *)
Inductive Event : Type :=
| EvCtxErr (tick : nat) (result : goerror)
| EvDeliver (batch : list Row) (result : goerror).

Definition Event_result (ev : Event) : goerror :=
  match ev with
  | EvCtxErr _ r => r
  | EvDeliver _ r => r
  end.

(** The batches handed to the callback, in order. *)
Fixpoint delivered (evs : list Event) : list (list Row) :=
  match evs with
  | [] => []
  | EvCtxErr _ _ :: rest => delivered rest
  | EvDeliver batch _ :: rest => batch :: delivered rest
  end.

Section WithCallback.

(** The callback [fn] with the state it keeps. *)
Context {S : Type} (fn : list Row -> S -> goerror * S).

(** The function [Iterate] hands to [IterateLoopSegments]: the loop over
    the iterator and the last batch.  [segments = segments[:0]] empties the
    batch under construction.  ([make] with a negative [batchSize] would
    panic before the loop; the batch sizes of interest are not negative.) *)
Fixpoint iterate_rows (batchSize : Z) (ctx : RunContext) (iterator : list Row)
    (tick : nat) (segments : list Row) (st : S) : goerror * S * list Event :=
  match iterator with
  | [] =>
    if (0 <? Z.of_nat (length segments)) then
      let '(err, st') := fn segments st in
      (err, st', [EvDeliver segments err])
    else (None, st, [])
  | segment :: rest =>
    let err := ctx tick in
    match err with
    | Some _ => (err, st, [EvCtxErr tick err])
    | None =>
      let segments := segments ++ [segment] in
      if batchSize <=? Z.of_nat (length segments) then
        let '(err, st') := fn segments st in
        match err with
        | Some _ => (err, st', [EvCtxErr tick None; EvDeliver segments err])
        | None =>
          let '(r, st'', evs) := iterate_rows batchSize ctx rest (Datatypes.S tick) [] st' in
          (r, st'', EvCtxErr tick None :: EvDeliver segments None :: evs)
        end
      else
        let '(r, st', evs) := iterate_rows batchSize ctx rest (Datatypes.S tick) segments st in
        (r, st', EvCtxErr tick None :: evs)
    end
  end.

(** Modelled from the spec: [metabase.DB.IterateLoopSegments], whose code is
    not in the files at hand.  The spec (6, catalog snapshot iteration) has
    it stream the rows of the key range in key order; it hands the callback
    an iterator over them and returns what the callback returns. *)
Definition IterateLoopSegments {R : Type} (d : DB) (opts : IterateLoopSegmentsOpts)
    (callback : list Row -> R) : R :=
  callback (d opts).

(** [Iterate] *)
Definition Iterate (provider : MetabaseSegmentProvider) (ctx : RunContext) (st : S)
    : goerror * S * list Event :=
  let startStreamID := default 0 (Range_Start (uuidRange provider)) in
  let endStreamID := default 0 (Range_End (uuidRange provider)) in
  IterateLoopSegments (db provider)
    (mkIterateLoopSegmentsOpts (batchSize provider) (asOfSystemTime provider)
                               startStreamID endStreamID)
    (fun iterator => iterate_rows (batchSize provider) ctx iterator 0 [] st).

End WithCallback.

End WithRows.

(** *** What the properties speak of *)

(** The provider [CreateRanges] builds for one range. *)
Definition provider_for {Row : Type} (provider : @MetabaseRangeSplitter Row) (batchSize now : Z)
    (uuidRange : UUIDRange) : @MetabaseSegmentProvider Row :=
  mkMetabaseSegmentProvider (splitter_db provider) uuidRange now batchSize.

(** The rows the catalog yields for a provider's range and snapshot. *)
Definition scan_rows {Row : Type} (provider : @MetabaseSegmentProvider Row) : list Row :=
  db provider
     (mkIterateLoopSegmentsOpts (batchSize provider) (asOfSystemTime provider)
        (default 0 (Range_Start (uuidRange provider)))
        (default 0 (Range_End (uuidRange provider)))).

(** A sequence of batches of size [size], the last of which may be
    shorter, but not empty. *)
Inductive chunked {Row : Type} (size : Z) : list (list Row) -> Prop :=
| chunked_nil : chunked size []
| chunked_last (batch : list Row) :
    0 < Z.of_nat (length batch) <= size -> chunked size [batch]
| chunked_full (batch : list Row) (rest : list (list Row)) :
    Z.of_nat (length batch) = size -> chunked size rest -> chunked size (batch :: rest).

(** An event with an error is the last event, and its error is the one
    returned; an error returned is that of the last event. *)
Definition stops_at_first_error {Row : Type} (err : goerror) (evs : list (@Event Row)) : Prop :=
  (forall pre ev post e,
     evs = pre ++ ev :: post -> Event_result ev = Some e -> post = [] /\ err = Some e) /\
  (forall e, err = Some e -> exists pre ev, evs = pre ++ [ev] /\ Event_result ev = Some e).

(** [NewMetabaseRangeSplitter] *)
Definition NewMetabaseRangeSplitter {Row : Type} (db : @DB Row) (batchSize : Z)
    : @MetabaseRangeSplitter Row :=
  mkMetabaseRangeSplitter db batchSize.

End RangedLoop.

(** ** Concrete worlds, for evaluating the code *)

Module Scenario.

Import SegmentVerify.

(** A node directory that knows node 42 only. *)
Definition overlay (nodeID : Z) (e : unit) : (NodeDossier * goerror) * unit :=
  if nodeID =? 42 then (mkNodeDossier 42 "10.0.0.42:7777" "v1.67.1", None, e)
  else (mkNodeDossier 0 EmptyString EmptyString, Some (New "node not found"), e).

(** A catalog whose latest alias table maps alias 7 to node 42. *)
Definition latest_table : gmap Z Z := {[ 7 := 42 ]}.

Definition catalog (e : unit) : (gmap Z Z * goerror) * unit :=
  (latest_table, None, e).

(** A verifier that answers every batch: node offline, no piece verified. *)
Definition offline_error : error := InClass ErrNodeOffline (New "dial failed").

Definition dead_verifier (alias : Z) (url : NodeURL) (version : string)
    (items : list nat) (ignoreThrottle : bool) (h : Heap) (e : unit)
    : (Z * goerror) * Heap * unit :=
  (0, Some offline_error, h, e).

(** A verifier that confirms every piece and leaves the segments alone. *)
Definition idle_verifier (alias : Z) (url : NodeURL) (version : string)
    (items : list nat) (ignoreThrottle : bool) (h : Heap) (e : unit)
    : (Z * goerror) * Heap * unit :=
  (Z.of_nat (length items), None, h, e).

(** A batcher that puts all segments in one batch for alias 7. *)
Definition one_batch (s : Service) (segments : list nat) (h : Heap)
    : (list Batch * goerror) * Heap :=
  ([mkBatch 7 segments], None, h).

Definition deps_dead : Collaborators :=
  mkCollaborators overlay catalog dead_verifier one_batch.

Definition deps_idle : Collaborators :=
  mkCollaborators overlay catalog idle_verifier one_batch.

Definition service_of (check maxOffline : Z) (aliases : gmap Z Z)
    (priority online : gset Z) (strikes : gmap Z Z) : Service :=
  mkService (mkServiceConfig check 1 maxOffline) aliases ∅ ∅ priority online strikes.

(** Two pieces, on nodes 7 and 8. *)
Definition two_pieces : list AliasPiece := [mkAliasPiece 0 7; mkAliasPiece 1 8].

Definition heap_two_pieces : Heap := fun _ => mkSegment 1 two_pieces 0.

Definition world_of (s : Service) (h : Heap) : @World unit := mkWorld s h tt [].

(** A fresh service that has never seen alias 7: no cache entry, and an
    empty local alias table. *)
Definition fresh_world : @World unit :=
  world_of (service_of 3 2 ∅ ∅ {[ 7 ]} ∅) heap_two_pieces.

(** A service that knows alias 7 and checks one piece per segment. *)
Definition retry_world : @World unit :=
  world_of (service_of 1 2 {[ 7 := 42 ]} ∅ {[ 7 ]} ∅)
                    heap_two_pieces.

(** A splitter over an empty catalog. *)
Definition empty_splitter : @RangedLoop.MetabaseRangeSplitter nat :=
  RangedLoop.mkMetabaseRangeSplitter (fun _ => []) 2500.

(** A provider over five catalog rows, scanned in batches of two. *)
Definition five_rows : @RangedLoop.MetabaseSegmentProvider nat :=
  RangedLoop.mkMetabaseSegmentProvider (fun _ => [1; 2; 3; 4; 5]%nat) (RangedLoop.mkUUIDRange None None)
                            1700000000 2.

(** A callback that keeps the batches it is handed. *)
Definition collect (batch : list nat) (st : list (list nat)) : goerror * list (list nat) :=
  (None, st ++ [batch]).

(** A context that is never cancelled. *)
Definition background : RangedLoop.RunContext := fun _ => None.

(** The error of a cancelled context. *)
Definition cancelled : error := New "context canceled".

(** A context that is cancelled from the fourth check on. *)
Definition cancelled_at_3 : RangedLoop.RunContext :=
  fun tick => if (tick <? 3)%nat then None else Some cancelled.

(** A provider over an empty catalog, scanned in batches of two. *)
Definition no_rows : @RangedLoop.MetabaseSegmentProvider nat :=
  RangedLoop.mkMetabaseSegmentProvider (fun _ => []) (RangedLoop.mkUUIDRange None None)
                                       1700000000 2.

(** A context of [VerifyBatches] that is never cancelled. *)
Definition never_cancelled : CallContext :=
  mkCallContext (fun _ => None) (fun _ => false).

(** A service with alias 7 in both caches and a limiter of [concurrency]
    slots. *)
Definition cached_service (concurrency : Z) : Service :=
  mkService (mkServiceConfig 3 concurrency 2) ∅
            {[ 7 := mkNodeURL 42 "10.0.0.42:7777" ]} {[ 7 := "v1.67.1"%string ]}
            ∅ {[ 7 ]} ∅.

(** A provider over three catalog rows with a batch size of 0. *)
Definition three_rows_size_0 : @RangedLoop.MetabaseSegmentProvider nat :=
  RangedLoop.mkMetabaseSegmentProvider (fun _ => [1; 2; 3]%nat)
                                       (RangedLoop.mkUUIDRange None None) 1700000000 0.

End Scenario.

(** ** The migration tool's [metabase] package

    [cmd/metainfo-migration/metabase/metabase.go]: the encoders of segment
    positions and node aliases. *)

Module MigrationMetabase.

(** [uint64(x)], and the left shift on a [uint64], which drops the bits
    that leave the word. *)
Definition uint64 (z : Z) : Z := z mod 2 ^ 64.
Definition shl64 (z : Z) (n : Z) : Z := uint64 (Z.shiftl z n).

(** [EncodeSegmentPosition]; both parameters are [uint32]. *)
Definition EncodeSegmentPosition (partNumber segmentPosition : Z) : Z :=
  Z.lor (shl64 (uint64 partNumber) 32) (uint64 segmentPosition).

(** [SegmentPosition] *)
Record SegmentPosition : Type := mkSegmentPosition { Part : Z; Segment : Z }.

(** [SegmentPosition.Encode] *)
Definition SegmentPosition_Encode (pos : SegmentPosition) : Z :=
  Z.lor (shl64 (uint64 (Part pos)) 32) (uint64 (Segment pos)).

(** A value of type [uint32]. *)
Definition is_uint32 (z : Z) : Prop := 0 <= z < 2 ^ 32.

(** The loop of [NodeAliases.Encode]: [xs[i] = int32(v)] for each index
    and value of [aliases]. *)
Fixpoint Encode_loop (i : nat) (aliases : list Z) (xs : list Z) : list Z :=
  match aliases with
  | [] => xs
  | v :: rest => Encode_loop (S i) rest (<[i := GoInt.int32 v]> xs)
  end.

(** [NodeAliases.Encode]: [make([]int32, len(aliases))] is a slice of
    zeros. *)
Definition NodeAliases_Encode (aliases : list Z) : list Z :=
  Encode_loop 0 aliases (replicate (length aliases) 0).

(** *** The database calls

    The errors of the package: [pgx.ErrNoRows], any other error of the
    driver, and the errors [fmt.Errorf] makes, with a wrapped error ([%w]) or
    without. *)
Inductive dberror : Type :=
| ErrNoRows
| DriverError (msg : string)
| Errorf_w (format : string) (wrapped : dberror)
| Errorf_plain (format : string).

#[global] Instance dberror_eq_dec : EqDecision dberror.
Proof. solve_decision. Defined.

(** [errors.Is(err, target)] for a non-nil [err]: the chain of wrapped
    errors holds [target]. *)
Fixpoint errors_Is_chain (err target : dberror) : bool :=
  if decide (err = target) then true
  else match err with
       | Errorf_w _ wrapped => errors_Is_chain wrapped target
       | _ => false
       end.

(** [errors.Is(err, target)]; a nil [err] is no error at all. *)
Definition errors_Is (err : option dberror) (target : dberror) : bool :=
  match err with
  | None => false
  | Some e => errors_Is_chain e target
  end.

(** [wrapf] *)
Definition wrapf (message : string) (err : option dberror) : option dberror :=
  match err with
  | Some e => Some (Errorf_w message e)
  | None => None
  end.

(** The SQL statements of the file, by what they do. *)
Inductive Statement : Type :=
| DropTables
| CreateTableBuckets
| CreateTypes
| CreateTableObjects
| CreateTableSegments
| InsertBucket
| InsertObject
| SelectPartialObject
| SelectSegment
| InsertSegment
| UpdateObjectCommitted.

(** The values bound to the placeholders of a statement. *)
Inductive Arg : Type :=
| ArgUUID (u : Z)
| ArgString (s : string)
| ArgBytes (b : string)
| ArgInt32 (z : Z)
| ArgUint64 (z : Z)
| ArgInt32s (xs : list Z).

(** How a statement is run: [conn.Exec] or [conn.QueryRow(...).Scan]. *)
Inductive CallKind : Type := ByExec | ByQueryRow.

(** One call of the driver, with the error it returned. *)
Record DriverCall : Type := mkDriverCall {
  call_kind : CallKind;
  call_statement : Statement;
  call_args : list Arg;
  call_result : option dberror
}.

(** [BeginSegment] and [CommitSegment], the options the code reads. *)
Record SegmentOpts : Type := mkSegmentOpts {
  opts_ProjectID : Z;
  opts_BucketName : string;
  opts_ObjectKey : string;
  opts_StreamID : Z;
  opts_SegmentPosition : SegmentPosition;
  opts_RootPieceID : string;
  opts_EncryptedKey : string;
  opts_EncryptedKeyNonce : string;
  opts_EncryptedSize : Z;
  opts_UnencryptedSize : Z;
  opts_NodeAliases : list Z
}.

Section WithDriver.

(** The database behind the connection. *)
Context {Db : Type}.

(** [*pgx.Conn]: [Exec] returns the number of rows affected and an error,
    [QueryRow(...).Scan] an error. *)
Record Driver : Type := mkDriver {
  driver_Exec : Statement -> list Arg -> Db -> (Z * option dberror) * Db;
  driver_Scan : Statement -> list Arg -> Db -> option dberror * Db
}.

Context (driver : Driver).

(** The database and the calls made on the connection so far. *)
Definition Session : Type := Db * list DriverCall.

Definition conn_Exec (stmt : Statement) (args : list Arg) (ss : Session)
    : (Z * option dberror) * Session :=
  let '(rows, err, d) := driver_Exec driver stmt args (fst ss) in
  (rows, err, (d, snd ss ++ [mkDriverCall ByExec stmt args err])).

Definition conn_Scan (stmt : Statement) (args : list Arg) (ss : Session)
    : option dberror * Session :=
  let '(err, d) := driver_Scan driver stmt args (fst ss) in
  (err, (d, snd ss ++ [mkDriverCall ByQueryRow stmt args err])).

(** [Migrate] *)
Definition Migrate (ss : Session) : option dberror * Session :=
  let '(_, err, ss) := conn_Exec CreateTableBuckets [] ss in
  match err with
  | Some _ => (wrapf "failed create table buckets: %w" err, ss)
  | None =>
    let '(_, err, ss) := conn_Exec CreateTypes [] ss in
    match err with
    | Some _ => (wrapf "failed create types: %w" err, ss)
    | None =>
      let '(_, err, ss) := conn_Exec CreateTableObjects [] ss in
      match err with
      | Some _ => (wrapf "failed create objects table: %w" err, ss)
      | None =>
        let '(_, err, ss) := conn_Exec CreateTableSegments [] ss in
        (wrapf "failed create segments table: %w" err, ss)
      end
    end
  end.

(** The arguments of the query for the partial object. *)
Definition partial_object_args (opts : SegmentOpts) : list Arg :=
  [ArgUUID (opts_ProjectID opts); ArgString (opts_BucketName opts);
   ArgBytes (opts_ObjectKey opts); ArgUUID (opts_StreamID opts)].

(** [BeginSegment] *)
Definition BeginSegment (opts : SegmentOpts) (ss : Session) : option dberror * Session :=
  let '(err, ss) := conn_Scan SelectPartialObject (partial_object_args opts) ss in
  match err with
  | Some _ => (wrapf "object is not partial: %w" err, ss)
  | None =>
    let '(err, ss) :=
      conn_Scan SelectSegment
        [ArgUUID (opts_StreamID opts);
         ArgUint64 (SegmentPosition_Encode (opts_SegmentPosition opts))] ss in
    if negb (errors_Is err ErrNoRows)
    then (wrapf "segment already exists: %w" err, ss)
    else (None, ss)
  end.

(** [CommitSegment] *)
Definition CommitSegment (opts : SegmentOpts) (ss : Session) : option dberror * Session :=
  let '(err, ss) := conn_Scan SelectPartialObject (partial_object_args opts) ss in
  match err with
  | Some _ => (wrapf "object is not partial: %w" err, ss)
  | None =>
    let '(_, err, ss) :=
      conn_Exec InsertSegment
        [ArgUUID (opts_StreamID opts);
         ArgUint64 (SegmentPosition_Encode (opts_SegmentPosition opts));
         ArgBytes (opts_RootPieceID opts);
         ArgBytes (opts_EncryptedKey opts);
         ArgBytes (opts_EncryptedKeyNonce opts);
         ArgInt32 (opts_EncryptedSize opts);
         ArgInt32 (opts_UnencryptedSize opts);
         ArgInt32s (NodeAliases_Encode (opts_NodeAliases opts))] ss in
    (wrapf "failed CommitSegment: %w" err, ss)
  end.

End WithDriver.

(** The statements of [Migrate], in the order of the source. *)
Definition migration_statements : list Statement :=
  [CreateTableBuckets; CreateTypes; CreateTableObjects; CreateTableSegments].

End MigrationMetabase.

(** A database for examples: it keeps the statements executed, accepts
    every [Exec], finds every partial object and finds no segment. *)
Module MigrationScenario.

Import MigrationMetabase.

Definition Executed : Type := list Statement.

Definition accepting : @Driver Executed :=
  {| driver_Exec := fun stmt _ d => (1, None, d ++ [stmt]);
     driver_Scan := fun stmt _ d =>
       match stmt with
       | SelectSegment => (Some ErrNoRows, d)
       | _ => (None, d)
       end |}.

Definition segment_1_2 : SegmentOpts :=
  {| opts_ProjectID := 7;
     opts_BucketName := "bucket";
     opts_ObjectKey := "key";
     opts_StreamID := 9;
     opts_SegmentPosition := {| Part := 1; Segment := 2 |};
     opts_RootPieceID := "piece";
     opts_EncryptedKey := "k";
     opts_EncryptedKeyNonce := "n";
     opts_EncryptedSize := 256;
     opts_UnencryptedSize := 200;
     opts_NodeAliases := [3; 4] |}.

Definition fresh : @Session Executed := ([], []).

End MigrationScenario.

(** * Properties *)

(** ** Facts on machine integers and errors *)

Module GoIntFacts.

Import GoInt.

Lemma int32_id z : min_int32 <= z <= max_int32 -> int32 z = z.
Proof.
unfold int32, wrap_signed, min_int32, max_int32. intros Hz.
rewrite Z.mod_small; lia.
Qed.

Lemma int32_range z : min_int32 <= int32 z <= max_int32.
Proof.
unfold int32, wrap_signed, min_int32, max_int32.
pose proof (Z.mod_pos_bound (z + 2 ^ (32 - 1)) (2 ^ 32)). lia.
Qed.

Lemma int_id z : min_int <= z <= max_int -> int z = z.
Proof.
unfold int, wrap_signed, min_int, max_int. intros Hz.
rewrite Z.mod_small; lia.
Qed.

Lemma incr_no_overflow z : min_int <= z < max_int -> incr z = z + 1.
Proof. intros Hz. unfold incr. apply int_id. unfold min_int, max_int in *. lia. Qed.

Lemma decr_positive z : 0 < z <= max_int -> decr z = z - 1.
Proof. intros Hz. unfold decr. apply int_id. unfold min_int, max_int in *. lia. Qed.

Lemma uint32_range z : 0 <= uint32 z < 2 ^ 32.
Proof. unfold uint32. apply Z.mod_pos_bound. lia. Qed.

Lemma uint32_id z : 0 <= z < 2 ^ 32 -> uint32 z = z.
Proof. unfold uint32. intros Hz. apply Z.mod_small. lia. Qed.

End GoIntFacts.

Module ErrsFacts.

Lemma Wrap_nil class : Wrap class None = None.
Proof. reflexivity. Qed.

Lemma Wrap_non_nil class e : Wrap class (Some e) <> None.
Proof. discriminate. Qed.

Lemma Wrap_is_nil class err : Wrap class err = None <-> err = None.
Proof. destruct err; simpl; split; congruence. Qed.

End ErrsFacts.

(** ** The node alias resolver *)

Module ResolverProofs.

Import SegmentVerify.

Section Resolver.

Context {Ext : Type} (deps : @Collaborators Ext).

(** Unfolding the monad. *)
Ltac run :=
  unfold mbind, M_bind, mret, M_ret, gets, modify_svc, modify_heap, modify,
         record_call, call_overlay_Get, call_LatestNodesAliasMap,
         call_verifier_Verify, call_CreateBatches in *;
  simpl in *.

(** On an alias that is in neither the cache nor the local alias table,
    [convertAliasToNodeURL] fetches the latest table and then returns the
    zero URL with the wrapped error of the fetch, whatever the table holds;
    the local table and the caches stay as they were. *)
Lemma convertAliasToNodeURL_miss (alias : Z) (w : World) :
  aliasToNodeURL (svc w) !! alias = None ->
  aliasMap (svc w) !! alias = None ->
  convertAliasToNodeURL deps alias w =
    (NodeURL_zero, Wrap Error (snd (fst (metabase_LatestNodesAliasMap deps (ext w)))),
     set_ext (snd (metabase_LatestNodesAliasMap deps (ext w))) w).
Proof.
  intros Hcache Htable. unfold convertAliasToNodeURL, Node. run.
  rewrite Hcache, Htable. simpl.
  destruct (metabase_LatestNodesAliasMap deps (ext w)) as [[latest err] e].
  reflexivity.
Qed.

(** A cached alias is answered from the cache, with no error. *)
Lemma convertAliasToNodeURL_cached (alias : Z) (w : World) (url : NodeURL) :
  aliasToNodeURL (svc w) !! alias = Some url ->
  convertAliasToNodeURL deps alias w = (url, None, w).
Proof.
  intros Hcache. unfold convertAliasToNodeURL. run. rewrite Hcache. reflexivity.
Qed.

(** [GetNodeInfo] answers from the two caches when both hold the alias. *)
Lemma GetNodeInfo_cached (alias : Z) (w : World) (url : NodeURL) (version : string) :
  aliasToNodeURL (svc w) !! alias = Some url ->
  nodesVersionMap (svc w) !! alias = Some version ->
  GetNodeInfo deps alias w = (mkNodeInfo version url, None, w).
Proof.
  intros Hurl Hver. unfold GetNodeInfo. run.
  rewrite (convertAliasToNodeURL_cached _ _ _ Hurl). simpl.
  rewrite Hver. reflexivity.
Qed.

Lemma convertAliasToNodeURL_frame (alias : Z) (w : World) :
  same_outside_caches w (snd (convertAliasToNodeURL deps alias w)).
Proof.
  unfold convertAliasToNodeURL, Node, same_outside_caches. run.
  destruct (aliasToNodeURL (svc w) !! alias); simpl; [tauto|].
  destruct (aliasMap (svc w) !! alias); simpl.
  - destruct (overlay_Get deps _ (ext w)) as [[info [e|]] x]; simpl; tauto.
  - destruct (metabase_LatestNodesAliasMap deps (ext w)) as [[latest err] x]; simpl; tauto.
Qed.

Lemma GetNodeInfo_frame (alias : Z) (w : World) :
  same_outside_caches w (snd (GetNodeInfo deps alias w)).
Proof.
  unfold GetNodeInfo. run.
  pose proof (convertAliasToNodeURL_frame alias w) as Hc.
  destruct (convertAliasToNodeURL deps alias w) as [[url [e|]] w1]; simpl in *; [exact Hc|].
  destruct (nodesVersionMap (svc w1) !! alias); simpl; [exact Hc|].
  destruct (overlay_Get deps _ (ext w1)) as [[info [e|]] x]; simpl;
    unfold same_outside_caches in *; simpl; tauto.
Qed.

End Resolver.

(** C1 (the code at a failing input).  A service that has never seen alias 7
    (no cache entry, empty local table) asks a catalog whose latest table
    maps 7 to node 42, a node the directory knows.  [convertAliasToNodeURL]
    fetches the table and returns the zero [NodeURL] with a nil error; the
    local table is not replaced, nothing is cached, and [GetNodeInfo] goes on
    to ask the directory for the zero node id. *)
Theorem C1_convertAliasToNodeURL_zero_url_nil_error :
  aliasToNodeURL (svc Scenario.fresh_world) !! 7 = None /\
  aliasMap (svc Scenario.fresh_world) !! 7 = None /\
  fst (Scenario.catalog tt) = (Scenario.latest_table, None) /\
  Scenario.latest_table !! 7 = Some 42 /\
  snd (fst (Scenario.overlay 42 tt)) = None /\
  fst (convertAliasToNodeURL Scenario.deps_dead 7 Scenario.fresh_world)
    = (NodeURL_zero, None) /\
  aliasMap (svc (snd (convertAliasToNodeURL Scenario.deps_dead 7 Scenario.fresh_world)))
    = ∅ /\
  aliasToNodeURL (svc (snd (convertAliasToNodeURL Scenario.deps_dead 7 Scenario.fresh_world)))
    = ∅.
Proof.
  repeat split; try reflexivity.
Qed.

End ResolverProofs.

(** ** Node health bookkeeping *)

Module HealthProofs.

Import SegmentVerify.

Lemma count_of_insert_eq (m : gmap Z Z) (alias v : Z) :
  count_of (<[alias := v]> m) alias = v.
Proof. unfold count_of. by rewrite lookup_insert_eq. Qed.

Lemma count_of_insert_ne (m : gmap Z Z) (alias other v : Z) :
  alias <> other -> count_of (<[alias := v]> m) other = count_of m other.
Proof. intros Hne. unfold count_of. by rewrite lookup_insert_ne. Qed.

(** The offline block with no piece verified: the alias leaves the online
    set and no counter moves. *)
Lemma on_node_offline_zero (alias : Z) (s : Service) :
  onlineNodes (on_node_offline alias 0 s) = onlineNodes s ∖ {[alias]} /\
  offlineCount (on_node_offline alias 0 s) = offlineCount s.
Proof. split; reflexivity. Qed.

(** The offline block with some piece verified: one more strike. *)
Lemma on_node_offline_count (alias v : Z) (s : Service) :
  v <> 0 ->
  count_of (offlineCount (on_node_offline alias v s)) alias
    = GoInt.incr (count_of (offlineCount s) alias).
Proof.
  intros Hv. unfold on_node_offline.
  destruct (Z.eqb_spec v 0) as [|_]; [contradiction|].
  destruct (_ && _); simpl; apply count_of_insert_eq.
Qed.

(** ... and the alias leaves the online set exactly when the maximum is
    positive and the new count has reached it. *)
Lemma on_node_offline_online (alias v : Z) (s : Service) :
  v <> 0 ->
  onlineNodes (on_node_offline alias v s) =
    if decide (0 < Config_MaxOffline (config s) /\
               Config_MaxOffline (config s) <= GoInt.incr (count_of (offlineCount s) alias))
    then onlineNodes s ∖ {[alias]}
    else onlineNodes s.
Proof.
  intros Hv. unfold on_node_offline.
  destruct (Z.eqb_spec v 0) as [|_]; [contradiction|]. simpl.
  rewrite count_of_insert_eq.
  destruct (Z.ltb_spec 0 (Config_MaxOffline (config s)));
    destruct (Z.leb_spec (Config_MaxOffline (config s))
                         (GoInt.incr (count_of (offlineCount s) alias)));
    simpl; case_decide; try reflexivity; lia.
Qed.

Lemma on_batch_success_online (alias : Z) (s : Service) :
  onlineNodes (on_batch_success alias s) = onlineNodes s.
Proof. unfold on_batch_success. by destruct (_ <? _). Qed.

Lemma on_batch_success_count (alias : Z) (s : Service) :
  count_of (offlineCount (on_batch_success alias s)) alias =
    if decide (0 < count_of (offlineCount s) alias)
    then GoInt.decr (count_of (offlineCount s) alias)
    else count_of (offlineCount s) alias.
Proof.
  unfold on_batch_success.
  destruct (Z.ltb_spec 0 (count_of (offlineCount s) alias)) as [Hpos|Hzero].
  - rewrite decide_True by done. simpl. apply count_of_insert_eq.
  - rewrite decide_False by lia. reflexivity.
Qed.

(** No outcome of a batch for one alias moves another alias. *)
Lemma reconcile_other (alias other v : Z) (err : goerror) (s : Service) :
  alias <> other ->
  count_of (offlineCount (reconcile alias v err s)) other = count_of (offlineCount s) other /\
  (other ∈ onlineNodes (reconcile alias v err s) <-> other ∈ onlineNodes s).
Proof.
  intros Hne. unfold reconcile, on_node_offline, on_batch_success.
  destruct err as [e|].
  - destruct (Has ErrNodeOffline e); [|tauto].
    destruct (v =? 0); simpl; [(set_unfold; naive_solver)|].
    destruct (_ && _); simpl; rewrite ?count_of_insert_ne by done; (set_unfold; naive_solver).
  - destruct (_ <? _); simpl; rewrite ?count_of_insert_ne by done; tauto.
Qed.

(** The outcome of a batch never brings an alias back online. *)
Lemma reconcile_online_subset (alias v : Z) (err : goerror) (s : Service) :
  onlineNodes (reconcile alias v err s) ⊆ onlineNodes s.
Proof.
  unfold reconcile, on_node_offline, on_batch_success.
  destruct err as [e|].
  - destruct (Has ErrNodeOffline e); [|done].
    destruct (v =? 0); simpl; [(set_unfold; naive_solver)|].
    destruct (_ && _); simpl; (set_unfold; naive_solver).
  - by destruct (_ <? _).
Qed.

(** C2 (as amended).  For a batch whose check returns a node-offline error,
    on a counter within the [int] range: with no piece verified the alias
    leaves the online set at once and its counter stays; with some piece
    verified the counter grows by one and the alias leaves the online set
    exactly when the configured maximum is positive and the counter has
    reached it.  For a batch that returns no error a positive counter drops
    by one, a zero counter stays, and the online set stays.  In each case the
    counter is not negative afterwards. *)
Theorem C2_strikes_with_positive_maximum
    (s : Service) (alias verifiedCount : Z) (e : error) :
  Has ErrNodeOffline e = true ->
  0 <= count_of (offlineCount s) alias < GoInt.max_int ->
  let c := count_of (offlineCount s) alias in
  let maxOffline := Config_MaxOffline (config s) in
  let offline := reconcile alias verifiedCount (Some e) s in
  let success := reconcile alias verifiedCount None s in
  (verifiedCount = 0 ->
     onlineNodes offline = onlineNodes s ∖ {[alias]} /\
     count_of (offlineCount offline) alias = c) /\
  (0 < verifiedCount ->
     count_of (offlineCount offline) alias = c + 1 /\
     (0 < maxOffline /\ maxOffline <= c + 1 ->
        onlineNodes offline = onlineNodes s ∖ {[alias]}) /\
     (~ (0 < maxOffline /\ maxOffline <= c + 1) ->
        onlineNodes offline = onlineNodes s)) /\
  (0 < c -> count_of (offlineCount success) alias = c - 1) /\
  (c = 0 -> count_of (offlineCount success) alias = 0) /\
  onlineNodes success = onlineNodes s /\
  0 <= count_of (offlineCount offline) alias /\
  0 <= count_of (offlineCount success) alias.
Proof.
  intros Hoff Hc c maxOffline offline success.
  assert (Hincr : GoInt.incr c = c + 1).
  { apply GoIntFacts.incr_no_overflow. unfold GoInt.min_int, GoInt.max_int in *.
    subst c. lia. }
  assert (Hsucc : count_of (offlineCount success) alias =
                  if decide (0 < c) then c - 1 else c).
  { subst success. simpl. rewrite on_batch_success_count. fold c.
    case_decide; [|done]. apply GoIntFacts.decr_positive.
    unfold GoInt.max_int in *. subst c. lia. }
  assert (Hoffc : verifiedCount <> 0 -> count_of (offlineCount offline) alias = c + 1).
  { intros Hv. subst offline. simpl. rewrite Hoff.
    rewrite on_node_offline_count by done. exact Hincr. }
  repeat apply conj.
  - intros ->. subst offline. simpl. rewrite Hoff. done.
  - intros Hv. split; [apply Hoffc; lia|].
    subst offline. simpl. rewrite Hoff.
    rewrite on_node_offline_online by lia. fold c maxOffline. rewrite Hincr.
    split; intros Hmax; [by rewrite decide_True | by rewrite decide_False].
  - intros Hpos. rewrite Hsucc. by rewrite decide_True.
  - intros Hz. rewrite Hsucc. rewrite decide_False; lia.
  - subst success. simpl. apply on_batch_success_online.
  - destruct (decide (verifiedCount = 0)) as [->|Hv].
    + subst offline. simpl. rewrite Hoff. simpl. fold c. subst c. lia.
    + rewrite Hoffc by done. subst c. lia.
  - rewrite Hsucc. case_decide; subst c; lia.
Qed.

(** A witness of C2: alias 7 has one strike and the maximum is 2; an offline
    batch with one piece verified makes it two strikes and takes the alias
    out of the online set, and a batch without error brings the strike back
    to zero. *)
Lemma C2_strikes_witness :
  let s := Scenario.service_of 3 2 ∅ ∅ {[ 7 ]} {[ 7 := 1 ]} in
  Has ErrNodeOffline Scenario.offline_error = true /\
  0 <= count_of (offlineCount s) 7 < GoInt.max_int /\
  count_of (offlineCount (reconcile 7 1 (Some Scenario.offline_error) s)) 7 = 1 + 1 /\
  onlineNodes (reconcile 7 1 (Some Scenario.offline_error) s) = onlineNodes s ∖ {[ 7 ]} /\
  count_of (offlineCount (reconcile 7 1 None s)) 7 = 1 - 1.
Proof.
  intros s.
  assert (H1 : Has ErrNodeOffline Scenario.offline_error = true) by reflexivity.
  assert (H2 : 0 <= count_of (offlineCount s) 7 < GoInt.max_int)
    by (vm_compute; split; [discriminate | reflexivity]).
  destruct (C2_strikes_with_positive_maximum s 7 1 Scenario.offline_error H1 H2)
    as (_ & Hpos & Hdec & _).
  destruct (Hpos ltac:(lia)) as (Hcount & Hremove & _).
  split; [exact H1|]. split; [exact H2|].
  split; [exact Hcount|].
  split; [apply Hremove; vm_compute; split; [reflexivity | discriminate] |].
  apply Hdec. vm_compute. reflexivity.
Defined.

(** The claim C2 as stated fails where the configured maximum is 0: after
    an offline batch with one piece verified the counter of alias 7 is 1,
    which has reached the maximum, and the alias is still online.  It also
    fails on a counter at the largest [int]: one more strike makes it the
    smallest [int], which is negative. *)
Lemma C2_counterexample_zero_maximum :
  let s := Scenario.service_of 3 0 ∅ ∅ {[ 7 ]} ∅ in
  let s' := reconcile 7 1 (Some Scenario.offline_error) s in
  let full := Scenario.service_of 3 2 ∅ ∅ {[ 7 ]} {[ 7 := GoInt.max_int ]} in
  let full' := reconcile 7 1 (Some Scenario.offline_error) full in
  Has ErrNodeOffline Scenario.offline_error = true /\
  7 ∈ onlineNodes s /\
  count_of (offlineCount s') 7 = 1 /\
  Config_MaxOffline (config s) <= count_of (offlineCount s') 7 /\
  7 ∈ onlineNodes s' /\
  count_of (offlineCount full) 7 = 9223372036854775807 /\
  count_of (offlineCount full') 7 = -9223372036854775808.
Proof.
  intros s s' full full'.
  assert (Hon : onlineNodes s' = {[ 7 ]}) by reflexivity.
  split; [reflexivity|]. split; [set_solver|].
  split; [reflexivity|]. split; [vm_compute; discriminate|].
  split; [rewrite Hon; set_solver|].
  split; vm_compute; reflexivity.
Qed.

Lemma reconcile_config (alias v : Z) (err : goerror) (s : Service) :
  config (reconcile alias v err s) = config s.
Proof.
  unfold reconcile, on_node_offline, on_batch_success.
  destruct err as [e|].
  - destruct (Has ErrNodeOffline e); [|done].
    destruct (v =? 0); simpl; [done|]. by destruct (_ && _).
  - by destruct (_ <? _).
Qed.

(** With a maximum that is not positive, a strike never changes the online
    set. *)
Lemma strike_keeps_online (alias v : Z) (e : error) (s : Service) :
  Config_MaxOffline (config s) <= 0 ->
  v <> 0 ->
  onlineNodes (reconcile alias v (Some e) s) = onlineNodes s.
Proof.
  intros Hmax Hv. simpl. destruct (Has ErrNodeOffline e); [|done].
  rewrite on_node_offline_online by done. rewrite decide_False; [done | lia].
Qed.

(** C10.  With a configured maximum that is not positive: an offline batch
    with at least one piece verified adds a strike and leaves the online set
    as it is; so does any sequence of such batches, however long; and a batch
    that takes an online alias out of the set is one for that alias, with a
    node-offline error and no piece verified. *)
Theorem C10_nonpositive_maximum_strikes_never_remove (s : Service) (alias : Z) :
  Config_MaxOffline (config s) <= 0 ->
  (forall (v : Z) (e : error),
     Has ErrNodeOffline e = true -> 0 < v ->
     let s' := reconcile alias v (Some e) s in
     onlineNodes s' = onlineNodes s /\
     count_of (offlineCount s') alias = GoInt.incr (count_of (offlineCount s) alias) /\
     (GoInt.min_int <= count_of (offlineCount s) alias < GoInt.max_int ->
        count_of (offlineCount s') alias = count_of (offlineCount s) alias + 1)) /\
  (forall strikes : list (Z * error),
     Forall (fun '(v, e) => Has ErrNodeOffline e = true /\ 0 < v) strikes ->
     onlineNodes (foldl (fun s '(v, e) => reconcile alias v (Some e) s) s strikes)
       = onlineNodes s) /\
  (forall (batchAlias v : Z) (err : goerror),
     alias ∈ onlineNodes s ->
     alias ∉ onlineNodes (reconcile batchAlias v err s) ->
     batchAlias = alias /\ v = 0 /\
     exists e, err = Some e /\ Has ErrNodeOffline e = true).
Proof.
  intros Hmax. repeat apply conj.
  - intros v e Hoff Hv s'. subst s'. repeat apply conj.
    + apply strike_keeps_online; [done | lia].
    + simpl. rewrite Hoff. apply on_node_offline_count. lia.
    + intros Hc. simpl. rewrite Hoff. rewrite on_node_offline_count by lia.
      by apply GoIntFacts.incr_no_overflow.
  - intros strikes. revert s Hmax.
    induction strikes as [|[v e] strikes IH]; intros s Hmax Hall; [done|].
    apply Forall_cons in Hall as [Hhead Hrest]. simpl in Hhead.
    destruct Hhead as [Hoff Hv]. cbn [foldl].
    rewrite IH; [| by rewrite reconcile_config | done].
    apply strike_keeps_online; [done | lia].
  - intros batchAlias v err Hin Hout.
    destruct (decide (batchAlias = alias)) as [->|Hne].
    2: { apply (reconcile_other batchAlias alias v err s) in Hne as [_ Hiff].
         tauto. }
    split; [done|]. unfold reconcile in Hout.
    destruct err as [e|].
    2: { by rewrite on_batch_success_online in Hout. }
    destruct (Has ErrNodeOffline e) eqn:Hoff; [|done].
    destruct (decide (v = 0)) as [->|Hv]; [by eauto|].
    rewrite on_node_offline_online in Hout by done.
    rewrite decide_False in Hout by lia. done.
Qed.

(** A witness of C10: the maximum is 0 and alias 7 already has five
    strikes. *)
Lemma C10_witness :
  let s := Scenario.service_of 3 0 ∅ ∅ {[ 7 ]} {[ 7 := 5 ]} in
  Config_MaxOffline (config s) <= 0 /\
  onlineNodes (reconcile 7 1 (Some Scenario.offline_error) s) = onlineNodes s /\
  count_of (offlineCount (reconcile 7 1 (Some Scenario.offline_error) s)) 7
    = GoInt.incr (count_of (offlineCount s) 7).
Proof.
  intros s.
  assert (Hmax : Config_MaxOffline (config s) <= 0) by (vm_compute; discriminate).
  destruct (C10_nonpositive_maximum_strikes_never_remove s 7 Hmax) as (Hone & _).
  destruct (Hone 1 Scenario.offline_error eq_refl ltac:(lia)) as (Hon & Hcount & _).
  split; [exact Hmax|]. split; [exact Hon | exact Hcount].
Defined.

End HealthProofs.

(** ** The retry budget *)

Module BudgetProofs.

Import SegmentVerify.

Section Budget.

Context {Ext : Type} (deps : @Collaborators Ext).

Lemma set_heap_set_heap (h h' : Heap) (w : @World Ext) :
  set_heap h' (set_heap h w) = set_heap h' w.
Proof. reflexivity. Qed.

Lemma set_heap_same (w : @World Ext) : set_heap (heap w) w = w.
Proof. by destruct w. Qed.

(** One round of the first loop. *)
Lemma init_retry_cons (p : nat) (segments : list nat) (w : @World Ext) :
  init_retry (p :: segments) w =
  init_retry segments
    (set_heap
       (<[p := set_Status_Retry
                 (GoInt.int32 (retryCount_of (Config_Check (config (svc w))) (heap w p)))
                 (heap w p)]> (heap w)) w).
Proof.
  unfold init_retry, retryCount_of. cbn [for_range].
  unfold mbind, M_bind, mret, M_ret, gets, modify_heap, modify. simpl.
  by destruct (_ =? 0).
Qed.

(** The first loop writes [Status.Retry] of the listed segments and nothing
    else: not the pieces, not the service, not the trace. *)
Lemma init_retry_spec (segments : list nat) (w : @World Ext) :
  exists h' : Heap,
    snd (init_retry segments w) = set_heap h' w /\
    forall q : nat,
      h' q =
        if decide (q ∈ segments)
        then set_Status_Retry
               (GoInt.int32 (retryCount_of (Config_Check (config (svc w))) (heap w q)))
               (heap w q)
        else heap w q.
Proof.
  revert w. induction segments as [|p segments IH]; intros w.
  - exists (heap w). split; [by rewrite set_heap_same|].
    intros q. rewrite decide_False; [done | set_solver].
  - rewrite init_retry_cons.
    set (h1 := <[p := _]> (heap w)).
    destruct (IH (set_heap h1 w)) as (h' & Hrun & Hh').
    exists h'. split; [by rewrite Hrun|].
    intros q. rewrite Hh'. simpl.
    assert (Hpieces : forall r, AliasPieces (h1 r) = AliasPieces (heap w r)).
    { intros r. subst h1. destruct (decide (p = r)) as [->|Hne].
      - by rewrite fn_lookup_insert.
      - by rewrite fn_lookup_insert_ne. }
    assert (Hcount : forall r c, retryCount_of c (h1 r) = retryCount_of c (heap w r)).
    { intros r c. unfold retryCount_of. by rewrite Hpieces. }
    destruct (decide (q ∈ segments)) as [Hin|Hnotin].
    + rewrite decide_True by set_solver. rewrite Hcount.
      subst h1. destruct (decide (p = q)) as [->|Hne].
      * by rewrite fn_lookup_insert.
      * by rewrite fn_lookup_insert_ne.
    + subst h1. destruct (decide (p = q)) as [->|Hne].
      * rewrite fn_lookup_insert. rewrite decide_True by set_solver. done.
      * rewrite fn_lookup_insert_ne by done. rewrite decide_False by set_solver. done.
Qed.

(** C5 (as amended).  After the first loop of [Verify], [Status.Retry] of
    every listed segment is the [int32] conversion of its budget: of the
    configured check count when that is not zero, of the number of its pieces
    when it is zero.  The conversion changes nothing on a budget within the
    [int32] range, so there [Status.Retry] is the count itself.  The pieces
    are as before. *)
Theorem C5_init_retry_int32_budget (segments : list nat) (w : @World Ext) (p : nat) :
  p ∈ segments ->
  let check := Config_Check (config (svc w)) in
  let w' := snd (init_retry segments w) in
  let budget := if check =? 0 then Z.of_nat (length (AliasPieces (heap w p))) else check in
  Status_Retry (heap w' p) = GoInt.int32 budget /\
  (GoInt.min_int32 <= budget <= GoInt.max_int32 -> Status_Retry (heap w' p) = budget) /\
  AliasPieces (heap w' p) = AliasPieces (heap w p).
Proof.
  intros Hin check w' budget. subst w'.
  destruct (init_retry_spec segments w) as (h' & -> & Hh').
  simpl. rewrite Hh'. rewrite decide_True by done. simpl.
  fold check. unfold retryCount_of. fold budget.
  repeat apply conj; [done | | done].
  apply GoIntFacts.int32_id.
Qed.

End Budget.

(** A witness of C5: a check count of 3 on the segment at address 0. *)
Lemma C5_witness :
  let w := Scenario.fresh_world in
  0%nat ∈ [0%nat] /\
  Status_Retry (heap (snd (init_retry [0%nat] w)) 0%nat) = GoInt.int32 3 /\
  Status_Retry (heap (snd (init_retry [0%nat] w)) 0%nat) = 3.
Proof.
  intros w.
  assert (Hin : 0%nat ∈ [0%nat]) by (apply list_elem_of_here).
  destruct (C5_init_retry_int32_budget [0%nat] w 0%nat Hin) as (Hretry & Hsmall & _).
  split; [exact Hin|]. split; [exact Hretry|].
  apply Hsmall. vm_compute. split; discriminate.
Defined.

(** The claim C5 as stated fails on a check count beyond the [int32] range:
    with [Check = 2^32] the budget is not zero, and [Status.Retry] is set
    to 0, not to the check count. *)
Lemma C5_counterexample_check_beyond_int32 :
  let w := Scenario.world_of (Scenario.service_of 4294967296 2 ∅ ∅ {[ 7 ]} ∅)
                             Scenario.heap_two_pieces in
  Config_Check (config (svc w)) = 4294967296 /\
  Config_Check (config (svc w)) <> 0 /\
  Status_Retry (heap (snd (init_retry [0%nat] w)) 0%nat) = 0 /\
  Status_Retry (heap (snd (init_retry [0%nat] w)) 0%nat) <> Config_Check (config (svc w)).
Proof.
  intros w. repeat apply conj; try reflexivity; vm_compute; discriminate.
Qed.

End BudgetProofs.

(** ** [VerifyBatches] *)

Module BatchesProofs.

Import SegmentVerify ResolverProofs.

Section Batches.

Context {Ext : Type} (deps : @Collaborators Ext).

Lemma VerifyBatches_unfold (batches : list Batch) (w : @World Ext) :
  VerifyBatches deps batches w = VerifyBatches_loop deps batches (at_entry batches w).
Proof. reflexivity. Qed.

(** One round of the loop. *)
Lemma VerifyBatches_loop_cons (batch : Batch) (rest : list Batch) (w : @World Ext) :
  VerifyBatches_loop deps (batch :: rest) w =
    match resolution_error deps batch w with
    | Some e => (Wrap Error (Some e), snd (GetNodeInfo deps (Batch_Alias batch) w))
    | None =>
      VerifyBatches_loop deps rest
        (after_task deps batch (fst (fst (GetNodeInfo deps (Batch_Alias batch) w)))
                    (snd (GetNodeInfo deps (Batch_Alias batch) w)))
    end.
Proof.
  unfold resolution_error, after_task. cbn [VerifyBatches_loop].
  unfold mbind at 1. unfold M_bind at 1.
  destruct (GetNodeInfo deps (Batch_Alias batch) w) as [[info [e|]] w1]; simpl; [done|].
  unfold mbind, M_bind, gets. simpl.
  by destruct (verify_task deps batch info _ w1).
Qed.

(** A task changes the health maps, the heap and the outside world; the
    caches, the configuration, the priority set and the trace stay. *)
Lemma after_task_frame (batch : Batch) (info : NodeInfo) (w : @World Ext) :
  trace (after_task deps batch info w) = trace w /\
  config (svc (after_task deps batch info w)) = config (svc w) /\
  priorityNodes (svc (after_task deps batch info w)) = priorityNodes (svc w) /\
  aliasToNodeURL (svc (after_task deps batch info w)) = aliasToNodeURL (svc w) /\
  nodesVersionMap (svc (after_task deps batch info w)) = nodesVersionMap (svc w).
Proof.
  unfold after_task, verify_task, call_verifier_Verify, modify_svc, modify.
  unfold mbind, M_bind. simpl.
  destruct (verifier_Verify deps _ _ _ _ _ _ _) as [[[v err] h] x]. simpl.
  unfold reconcile, on_node_offline, on_batch_success.
  destruct err as [e|].
  - destruct (Has ErrNodeOffline e); [|done].
    destruct (v =? 0); simpl; [done|]. by destruct (_ && _).
  - by destruct (_ <? _).
Qed.

(** What a task does to the service is [reconcile] on the verifier's
    answer. *)
Lemma after_task_svc (batch : Batch) (info : NodeInfo) (w : @World Ext) :
  svc (after_task deps batch info w) =
    reconcile (Batch_Alias batch)
      (fst (fst (fst (verifier_Verify deps (Batch_Alias batch) (NodeURL_of info)
                        (Version info) (Items batch)
                        (bool_decide (Batch_Alias batch ∈ priorityNodes (svc w)))
                        (heap w) (ext w)))))
      (snd (fst (fst (verifier_Verify deps (Batch_Alias batch) (NodeURL_of info)
                        (Version info) (Items batch)
                        (bool_decide (Batch_Alias batch ∈ priorityNodes (svc w)))
                        (heap w) (ext w)))))
      (svc w).
Proof.
  unfold after_task, verify_task, call_verifier_Verify, modify_svc, modify.
  unfold mbind, M_bind. simpl.
  by destruct (verifier_Verify deps _ _ _ _ _ _ _) as [[[v err] h] x].
Qed.

(** The loop leaves the trace, the configuration and the priority set as
    they are. *)
Lemma VerifyBatches_loop_frame (batches : list Batch) (w : @World Ext) :
  trace (snd (VerifyBatches_loop deps batches w)) = trace w /\
  config (svc (snd (VerifyBatches_loop deps batches w))) = config (svc w) /\
  priorityNodes (svc (snd (VerifyBatches_loop deps batches w))) = priorityNodes (svc w).
Proof.
  revert w. induction batches as [|batch rest IH]; intros w; [done|].
  rewrite VerifyBatches_loop_cons.
  pose proof (GetNodeInfo_frame deps (Batch_Alias batch) w) as (Ht & _ & Hc & Hp & _).
  destruct (resolution_error deps batch w) as [e|]; simpl; [done|].
  destruct (IH (after_task deps batch (fst (fst (GetNodeInfo deps (Batch_Alias batch) w)))
                           (snd (GetNodeInfo deps (Batch_Alias batch) w))))
    as (Ht' & Hc' & Hp').
  pose proof (after_task_frame batch (fst (fst (GetNodeInfo deps (Batch_Alias batch) w)))
                (snd (GetNodeInfo deps (Batch_Alias batch) w))) as (Ht'' & Hc'' & Hp'' & _).
  rewrite Ht', Hc', Hp', Ht'', Hc'', Hp''. done.
Qed.

(** [VerifyBatches] records its own call and nothing else. *)
Lemma VerifyBatches_trace (batches : list Batch) (w : @World Ext) :
  trace (snd (VerifyBatches deps batches w)) = trace w ++ [CallVerifyBatches batches].
Proof.
  rewrite VerifyBatches_unfold.
  by destruct (VerifyBatches_loop_frame batches (at_entry batches w)) as (-> & _).
Qed.

(** The loop ends in an error exactly when it reaches a batch whose alias
    does not resolve; the error is that of the resolver, wrapped. *)
Lemma VerifyBatches_loop_error (batches : list Batch) (w : @World Ext) (err : error) :
  fst (VerifyBatches_loop deps batches w) = Some err <->
  exists (pre : list Batch) (batch : Batch) (post : list Batch) (e : error),
    batches = pre ++ batch :: post /\
    fst (VerifyBatches_loop deps pre w) = None /\
    resolution_error deps batch (snd (VerifyBatches_loop deps pre w)) = Some e /\
    err = wrap_in Error e.
Proof.
  revert w. induction batches as [|batch rest IH]; intros w.
  - split; [done|]. intros (pre & b & post & e & Heq & _). by destruct pre.
  - rewrite VerifyBatches_loop_cons.
    destruct (resolution_error deps batch w) as [e|] eqn:Hres.
    + split.
      * intros [= <-]. by exists [], batch, rest, e.
      * intros (pre & b & post & e' & Heq & Hpre & Hb & ->).
        destruct pre as [|b0 pre]; injection Heq as <- ->.
        -- cbn [VerifyBatches_loop mret M_ret snd] in Hb. rewrite Hres in Hb.
           by injection Hb as <-.
        -- rewrite VerifyBatches_loop_cons, Hres in Hpre. done.
    + rewrite IH. split.
      * intros (pre & b & post & e & -> & Hpre & Hb & ->).
        exists (batch :: pre), b, post, e.
        rewrite VerifyBatches_loop_cons, Hres. done.
      * intros (pre & b & post & e & Heq & Hpre & Hb & ->).
        destruct pre as [|b0 pre]; injection Heq as <- ->.
        -- cbn [VerifyBatches_loop mret M_ret snd] in Hb. rewrite Hres in Hb. done.
        -- rewrite VerifyBatches_loop_cons, Hres in Hpre.
           rewrite VerifyBatches_loop_cons, Hres in Hb.
           by exists pre, b, post, e.
Qed.

(** With every alias in both caches the loop resolves every batch. *)
Lemma VerifyBatches_loop_cached (batches : list Batch) (w : @World Ext) :
  (forall batch, batch ∈ batches ->
     is_Some (aliasToNodeURL (svc w) !! Batch_Alias batch) /\
     is_Some (nodesVersionMap (svc w) !! Batch_Alias batch)) ->
  fst (VerifyBatches_loop deps batches w) = None.
Proof.
  revert w. induction batches as [|batch rest IH]; intros w Hall; [done|].
  rewrite VerifyBatches_loop_cons.
  destruct (Hall batch) as [[url Hurl] [version Hver]]; [set_solver|].
  unfold resolution_error.
  rewrite (GetNodeInfo_cached deps _ _ _ _ Hurl Hver). simpl.
  apply IH. intros b Hb.
  destruct (after_task_frame batch (mkNodeInfo version url) w) as (_ & _ & _ & -> & ->).
  apply Hall. set_solver.
Qed.

(** *** [VerifyBatches] with its limiter *)

(** One round of the loop of a limiter that has a slot. *)
Lemma VerifyBatches_limited_loop_cons (limit : Z) (ctx : CallContext) (k : nat)
    (batch : Batch) (rest : list Batch) (w : @World Ext) :
  0 < limit ->
  VerifyBatches_limited_loop deps limit ctx k (batch :: rest) w =
    match resolution_error deps batch w with
    | Some e =>
      (Returns (Wrap Error (Some e)), snd (GetNodeInfo deps (Batch_Alias batch) w))
    | None =>
      VerifyBatches_limited_loop deps limit ctx (S k) rest
        (match ctx_Err ctx k with
         | Some _ => snd (GetNodeInfo deps (Batch_Alias batch) w)
         | None =>
           after_task deps batch (fst (fst (GetNodeInfo deps (Batch_Alias batch) w)))
                      (snd (GetNodeInfo deps (Batch_Alias batch) w))
         end)
    end.
Proof.
  intros Hlimit. unfold resolution_error, after_task. cbn [VerifyBatches_limited_loop].
  destruct (GetNodeInfo deps (Batch_Alias batch) w) as [[info [e|]] w1]; simpl; [done|].
  unfold limiter_Go. destruct (ctx_Err ctx k) as [e|]; [done|].
  destruct (Z.ltb_spec 0 limit) as [_|Hle]; [done | lia].
Qed.

(** With a slot the loop returns. *)
Lemma VerifyBatches_limited_loop_returns (limit : Z) (ctx : CallContext)
    (batches : list Batch) :
  0 < limit ->
  forall (k : nat) (w : @World Ext),
    exists err : goerror,
      fst (VerifyBatches_limited_loop deps limit ctx k batches w) = Returns err.
Proof.
  intros Hlimit. induction batches as [|batch rest IH]; intros k w.
  - by exists None.
  - rewrite VerifyBatches_limited_loop_cons by done.
    destruct (resolution_error deps batch w) as [e|]; [by eexists|]. apply IH.
Qed.

(** With a slot the loop returns an error exactly when it reaches a batch
    whose alias does not resolve, whatever the context. *)
Lemma VerifyBatches_limited_loop_error (limit : Z) (ctx : CallContext)
    (batches : list Batch) (err : error) :
  0 < limit ->
  forall (k : nat) (w : @World Ext),
    fst (VerifyBatches_limited_loop deps limit ctx k batches w) = Returns (Some err) <->
    exists (pre : list Batch) (batch : Batch) (post : list Batch) (e : error),
      batches = pre ++ batch :: post /\
      fst (VerifyBatches_limited_loop deps limit ctx k pre w) = Returns None /\
      resolution_error deps batch
        (snd (VerifyBatches_limited_loop deps limit ctx k pre w)) = Some e /\
      err = wrap_in Error e.
Proof.
  intros Hlimit. induction batches as [|batch rest IH]; intros k w.
  - split; [done|]. intros (pre & b & post & e & Heq & _). by destruct pre.
  - rewrite VerifyBatches_limited_loop_cons by done.
    destruct (resolution_error deps batch w) as [e|] eqn:Hres.
    + split.
      * intros [= <-]. by exists [], batch, rest, e.
      * intros (pre & b & post & e' & Heq & Hpre & Hb & ->).
        destruct pre as [|b0 pre]; injection Heq as <- ->.
        -- cbn [VerifyBatches_limited_loop limiter_Wait snd] in Hb. rewrite Hres in Hb.
           by injection Hb as <-.
        -- rewrite VerifyBatches_limited_loop_cons, Hres in Hpre by done. done.
    + rewrite IH. split.
      * intros (pre & b & post & e & -> & Hpre & Hb & ->).
        exists (batch :: pre), b, post, e.
        rewrite VerifyBatches_limited_loop_cons, Hres by done. done.
      * intros (pre & b & post & e & Heq & Hpre & Hb & ->).
        destruct pre as [|b0 pre]; injection Heq as <- ->.
        -- cbn [VerifyBatches_limited_loop limiter_Wait snd] in Hb. rewrite Hres in Hb. done.
        -- rewrite VerifyBatches_limited_loop_cons, Hres in Hpre by done.
           rewrite VerifyBatches_limited_loop_cons, Hres in Hb by done.
           by exists pre, b, post, e.
Qed.

(** With a slot and every alias in both caches the loop returns nil. *)
Lemma VerifyBatches_limited_loop_cached (limit : Z) (ctx : CallContext)
    (batches : list Batch) :
  0 < limit ->
  forall (k : nat) (w : @World Ext),
    (forall batch, batch ∈ batches ->
       is_Some (aliasToNodeURL (svc w) !! Batch_Alias batch) /\
       is_Some (nodesVersionMap (svc w) !! Batch_Alias batch)) ->
    fst (VerifyBatches_limited_loop deps limit ctx k batches w) = Returns None.
Proof.
  intros Hlimit. induction batches as [|batch rest IH]; intros k w Hall; [done|].
  rewrite VerifyBatches_limited_loop_cons by done.
  destruct (Hall batch) as [[url Hurl] [version Hver]]; [set_solver|].
  unfold resolution_error.
  rewrite (GetNodeInfo_cached deps _ _ _ _ Hurl Hver). simpl.
  apply IH. intros b Hb.
  destruct (ctx_Err ctx k) as [e|]; [apply Hall; set_solver|].
  destruct (after_task_frame batch (mkNodeInfo version url) w) as (_ & _ & _ & -> & ->).
  apply Hall. set_solver.
Qed.

(** With a slot and a context that is not cancelled, the loop is the loop
    in which every task runs where it is started. *)
Lemma VerifyBatches_limited_loop_admitted (limit : Z) (ctx : CallContext)
    (batches : list Batch) :
  0 < limit ->
  (forall k : nat, ctx_Err ctx k = None) ->
  forall (k : nat) (w : @World Ext),
    VerifyBatches_limited_loop deps limit ctx k batches w
      = (Returns (fst (VerifyBatches_loop deps batches w)),
         snd (VerifyBatches_loop deps batches w)).
Proof.
  intros Hlimit Hctx. induction batches as [|batch rest IH]; intros k w; [done|].
  rewrite VerifyBatches_limited_loop_cons, VerifyBatches_loop_cons by done.
  destruct (resolution_error deps batch w) as [e|]; [done|].
  rewrite Hctx. apply IH.
Qed.

(** [VerifyBatches] is [VerifyBatches_limited] for a limiter that has a slot
    and a context that is not cancelled. *)
Lemma VerifyBatches_limited_admitted (ctx : CallContext) (batches : list Batch)
    (w : @World Ext) :
  1 <= Config_Concurrency (config (svc w)) ->
  (forall k : nat, ctx_Err ctx k = None) ->
  VerifyBatches_limited deps ctx batches w
    = (Returns (fst (VerifyBatches deps batches w)), snd (VerifyBatches deps batches w)).
Proof.
  intros Hlimit Hctx. unfold VerifyBatches_limited, NewLimiter. simpl.
  destruct (Z.ltb_spec (Config_Concurrency (config (svc w))) 0) as [Hneg|_]; [lia|].
  rewrite VerifyBatches_unfold.
  apply VerifyBatches_limited_loop_admitted; [lia | done].
Qed.

(** C4 (amended).  With a limiter of at least one slot, and whatever the
    context and the collaborators do, [VerifyBatches] returns; it returns an
    error exactly when its loop reaches a batch for which [GetNodeInfo]
    returns one.  Whatever the verifier returns, an error or not, never
    enters the result: with every batch's alias in the resolver's caches the
    result is nil for every verifier. *)
Theorem C4_VerifyBatches_with_a_slot_fails_iff_resolution_fails
    (ctx : CallContext) (batches : list Batch) (w : @World Ext) :
  1 <= Config_Concurrency (config (svc w)) ->
  let limit := Config_Concurrency (config (svc w)) in
  (exists err : goerror,
     fst (VerifyBatches_limited deps ctx batches w) = Returns err) /\
  ((exists e : error,
      fst (VerifyBatches_limited deps ctx batches w) = Returns (Some e)) <->
   exists (pre : list Batch) (batch : Batch) (post : list Batch),
     batches = pre ++ batch :: post /\
     fst (VerifyBatches_limited_loop deps limit ctx 0 pre (at_entry batches w))
       = Returns None /\
     resolution_error deps batch
       (snd (VerifyBatches_limited_loop deps limit ctx 0 pre (at_entry batches w)))
       <> None) /\
  ((forall batch, batch ∈ batches ->
      is_Some (aliasToNodeURL (svc w) !! Batch_Alias batch) /\
      is_Some (nodesVersionMap (svc w) !! Batch_Alias batch)) ->
   fst (VerifyBatches_limited deps ctx batches w) = Returns None).
Proof.
  intros Hslot limit. subst limit.
  assert (Hlimit : 0 < Config_Concurrency (config (svc w))) by lia.
  assert (Hrun : VerifyBatches_limited deps ctx batches w
                 = VerifyBatches_limited_loop deps (Config_Concurrency (config (svc w)))
                     ctx 0 batches (at_entry batches w)).
  { unfold VerifyBatches_limited, NewLimiter. simpl.
    destruct (Z.ltb_spec (Config_Concurrency (config (svc w))) 0) as [Hneg|_]; [lia|].
    reflexivity. }
  rewrite Hrun. split_and!.
  - by apply VerifyBatches_limited_loop_returns.
  - split.
    + intros [e He].
      apply VerifyBatches_limited_loop_error in He
        as (pre & batch & post & e' & Heq & Hpre & Hres & _); [|done].
      exists pre, batch, post. rewrite Hres. done.
    + intros (pre & batch & post & Heq & Hpre & Hres).
      destruct (resolution_error deps batch _) as [e|] eqn:He; [|done].
      exists (wrap_in Error e).
      apply VerifyBatches_limited_loop_error; [done|]. by exists pre, batch, post, e.
  - intros Hall. by apply VerifyBatches_limited_loop_cached.
Qed.

End Batches.

(** A witness of C4: one slot, alias 7 in both caches, a verifier that
    fails on every batch; [VerifyBatches] returns nil. *)
Lemma C4_witness :
  let w := Scenario.world_of (Scenario.cached_service 1) Scenario.heap_two_pieces in
  1 <= Config_Concurrency (config (svc w)) /\
  snd (fst (fst (Scenario.dead_verifier 7 NodeURL_zero EmptyString [0%nat] false (heap w) tt)))
    = Some Scenario.offline_error /\
  fst (VerifyBatches_limited Scenario.deps_dead Scenario.never_cancelled
                             [mkBatch 7 [0%nat]] w) = Returns None.
Proof.
  intros w.
  assert (Hslot : 1 <= Config_Concurrency (config (svc w))) by (vm_compute; discriminate).
  split; [exact Hslot|]. split; [reflexivity|].
  apply (C4_VerifyBatches_with_a_slot_fails_iff_resolution_fails
           Scenario.deps_dead Scenario.never_cancelled [mkBatch 7 [0%nat]] w Hslot).
  intros batch Hin. apply list_elem_of_singleton in Hin as ->.
  split; eexists; reflexivity.
Defined.

(** The claim C4 as stated fails where the limiter has no slot: with
    [Concurrency = 0], a context that is not cancelled and alias 7 in both
    caches, the alias of the one batch resolves and [VerifyBatches] does not
    return nil: it waits for ever in [limiter.Go].  With [Concurrency = -1]
    it panics in [sync2.NewLimiter]. *)
Lemma C4_counterexample_no_slot :
  let batches := [mkBatch 7 [0%nat]] in
  let w := Scenario.world_of (Scenario.cached_service 0) Scenario.heap_two_pieces in
  let w' := Scenario.world_of (Scenario.cached_service (-1)) Scenario.heap_two_pieces in
  resolution_error Scenario.deps_dead (mkBatch 7 [0%nat]) (at_entry batches w) = None /\
  fst (VerifyBatches_limited Scenario.deps_dead Scenario.never_cancelled batches w)
    = Blocks /\
  fst (VerifyBatches_limited Scenario.deps_dead Scenario.never_cancelled batches w')
    = Panics.
Proof.
  intros batches w w'. split_and!.
  - unfold resolution_error. by erewrite GetNodeInfo_cached.
  - unfold VerifyBatches_limited. simpl.
    by erewrite GetNodeInfo_cached.
  - reflexivity.
Qed.

End BatchesProofs.

(** ** [Verify]: the two passes *)

Module VerifyProofs.

Import SegmentVerify ResolverProofs BatchesProofs BudgetProofs.

(** *** The swap loop reverses *)

(** With [pre] already swapped in at the front and [post] at the back, the
    loop reverses what lies between its two indices. *)
Lemma reverse_loop_spec (fuel : nat) (pre mid post : list AliasPiece) :
  (length mid <= fuel)%nat ->
  reverse_loop fuel (Z.of_nat (length pre))
               (Z.of_nat (length pre) + Z.of_nat (length mid) - 1)
               (pre ++ mid ++ post)
  = pre ++ reverse mid ++ post.
Proof.
  revert pre mid post. induction fuel as [|fuel IH]; intros pre mid post Hfuel.
  - destruct mid; [done | simpl in Hfuel; lia].
  - cbn [reverse_loop].
    destruct mid as [|a mid]; [| destruct (decide (mid = [])) as [->|Hmid]].
    + rewrite (proj2 (Z.ltb_ge _ _)) by (simpl; lia). done.
    + rewrite (proj2 (Z.ltb_ge _ _)) by (simpl; lia). done.
    + destruct (exists_last Hmid) as (mid' & b & ->).
      rewrite length_cons, length_app in *. simpl in *.
      rewrite (proj2 (Z.ltb_lt _ _)) by lia.
      rewrite Nat2Z.id.
      replace (Z.to_nat (Z.of_nat (length pre) + Z.of_nat (S (length mid' + 1)) - 1))
        with (length pre + S (length mid'))%nat by lia.
      assert (Hi : (pre ++ a :: (mid' ++ [b]) ++ post) !! length pre = Some a)
        by (by apply list_lookup_middle).
      assert (Hj : (pre ++ a :: (mid' ++ [b]) ++ post) !! (length pre + S (length mid'))%nat
                   = Some b).
      { rewrite lookup_app_r by lia.
        replace (length pre + S (length mid') - length pre)%nat
          with (S (length mid')) by lia.
        simpl. rewrite <- app_assoc. simpl. by apply list_lookup_middle. }
      rewrite Hi, Hj.
      assert (Hswap : <[(length pre + S (length mid'))%nat := a]>
                        (<[length pre := b]> (pre ++ a :: (mid' ++ [b]) ++ post))
                      = (pre ++ [b]) ++ mid' ++ (a :: post)).
      { replace (length pre) with (length pre + 0)%nat at 2 by lia.
        rewrite insert_app_r. simpl. rewrite insert_app_r. simpl.
        rewrite <- !app_assoc. simpl. f_equal. f_equal.
        replace (length mid') with (length mid' + 0)%nat at 1 by lia.
        rewrite insert_app_r. done. }
      rewrite Hswap.
      replace (Z.of_nat (length pre) + 1) with (Z.of_nat (length (pre ++ [b])))
        by (rewrite length_app; simpl; lia).
      replace (Z.of_nat (length pre) + Z.of_nat (S (length mid' + 1)) - 1 - 1)
        with (Z.of_nat (length (pre ++ [b])) + Z.of_nat (length mid') - 1)
        by (rewrite length_app; simpl; lia).
      rewrite IH by lia.
      rewrite reverse_cons, reverse_snoc. rewrite <- !app_assoc. done.
Qed.

(** The loop of [Verify] over a piece list is list reversal. *)
Lemma reverse_in_place_reverse (xs : list AliasPiece) :
  reverse_in_place xs = reverse xs.
Proof.
  unfold reverse_in_place.
  pose proof (reverse_loop_spec (length xs) [] xs []) as Hspec.
  simpl in Hspec. rewrite !app_nil_r in Hspec. apply Hspec. lia.
Qed.

Section Passes.

Context {Ext : Type} (deps : @Collaborators Ext).

Lemma after_init_frame (segments : list nat) (w : @World Ext) :
  trace (after_init segments w) = trace w /\ svc (after_init segments w) = svc w.
Proof.
  unfold after_init. by destruct (init_retry_spec segments w) as (h' & -> & _).
Qed.

(** One round of the loop that prepares the retried segments. *)
Lemma prepare_retry_cons (p : nat) (rs : list nat) (w : @World Ext) :
  exists h1 : nat -> Segment,
    prepare_retry (p :: rs) w = prepare_retry rs (set_heap h1 w) /\
    forall q : nat,
      h1 q = if decide (p = q) then prepared (priorityNodes (svc w)) (heap w q)
             else heap w q.
Proof.
  eexists. split.
  - unfold prepare_retry, removePriorityPieces. cbn [for_range].
    unfold mbind, M_bind, mret, M_ret, gets, modify_heap, modify. simpl.
    reflexivity.
  - intros q. simpl. destruct (decide (p = q)) as [->|Hne].
    + rewrite !fn_lookup_insert. unfold prepared. simpl.
      by rewrite reverse_in_place_reverse.
    + by rewrite !fn_lookup_insert_ne.
Qed.

(** The loop changes the heap only; on a list without repetition it leaves
    each listed segment with its pieces reversed and the priority pieces
    gone, and every other segment as it was. *)
Lemma prepare_retry_spec (rs : list nat) (w : @World Ext) :
  exists h' : nat -> Segment,
    snd (prepare_retry rs w) = set_heap h' w /\
    (NoDup rs ->
     forall q : nat,
       h' q = if decide (q ∈ rs) then prepared (priorityNodes (svc w)) (heap w q)
              else heap w q).
Proof.
  revert w. induction rs as [|p rs IH]; intros w.
  - exists (heap w). split; [by rewrite set_heap_same|].
    intros _ q. rewrite decide_False; [done | set_solver].
  - destruct (prepare_retry_cons p rs w) as (h1 & -> & Hh1).
    destruct (IH (set_heap h1 w)) as (h' & Hrun & Hh').
    exists h'. split; [by rewrite Hrun|].
    intros Hnodup q. apply NoDup_cons in Hnodup as [Hp Hrs].
    rewrite (Hh' Hrs). simpl. rewrite Hh1.
    destruct (decide (q ∈ rs)) as [Hin|Hnotin];
      destruct (decide (q ∈ p :: rs)) as [Hin'|Hnotin'];
      destruct (decide (p = q)) as [Heq|Hne];
      try done; exfalso; set_solver.
Qed.

(** The batcher records its call and leaves the service alone. *)
Lemma call_CreateBatches_frame (segments : list nat) (w : @World Ext) :
  trace (snd (call_CreateBatches deps segments w)) = trace w ++ [CallCreateBatches segments] /\
  svc (snd (call_CreateBatches deps segments w)) = svc w.
Proof.
  unfold call_CreateBatches. by destruct (service_CreateBatches deps _ _ _) as [r h].
Qed.

(** A pass, step by step. *)
Lemma Verify_pass_run (segments : list nat) (w : @World Ext) :
  Verify_pass deps segments w =
    match snd (fst (call_CreateBatches deps segments w)) with
    | Some e => (Wrap Error (Some e), snd (call_CreateBatches deps segments w))
    | None =>
      (Wrap Error (fst (VerifyBatches deps (fst (fst (call_CreateBatches deps segments w)))
                                      (snd (call_CreateBatches deps segments w)))),
       snd (VerifyBatches deps (fst (fst (call_CreateBatches deps segments w)))
                          (snd (call_CreateBatches deps segments w))))
    end.
Proof.
  unfold Verify_pass. unfold mbind at 1. unfold M_bind at 1.
  destruct (call_CreateBatches deps segments w) as [[batches [e|]] w1]; simpl; [done|].
  unfold mbind, M_bind.
  by destruct (VerifyBatches deps batches w1) as [[e|] w2].
Qed.

(** What a pass records: the call of the batcher and, when that succeeds,
    the call of [VerifyBatches] on its batches. *)
Lemma Verify_pass_trace (segments : list nat) (w : @World Ext) :
  trace (snd (Verify_pass deps segments w)) =
    trace w ++
      CallCreateBatches segments ::
      match snd (fst (call_CreateBatches deps segments w)) with
      | Some _ => []
      | None => [CallVerifyBatches (fst (fst (call_CreateBatches deps segments w)))]
      end.
Proof.
  rewrite Verify_pass_run.
  destruct (call_CreateBatches_frame segments w) as [Ht _].
  destruct (snd (fst (call_CreateBatches deps segments w))) as [e|]; simpl; [done|].
  rewrite VerifyBatches_trace, Ht, <- app_assoc. done.
Qed.

(** A pass that returns no error has called [VerifyBatches]. *)
Lemma Verify_pass_ok (segments : list nat) (w : @World Ext) :
  fst (Verify_pass deps segments w) = None ->
  snd (fst (call_CreateBatches deps segments w)) = None.
Proof.
  rewrite Verify_pass_run.
  by destruct (snd (fst (call_CreateBatches deps segments w))) as [e|].
Qed.

(** A pass leaves the configuration and the priority set as they are. *)
Lemma Verify_pass_frame (segments : list nat) (w : @World Ext) :
  config (svc (snd (Verify_pass deps segments w))) = config (svc w) /\
  priorityNodes (svc (snd (Verify_pass deps segments w))) = priorityNodes (svc w).
Proof.
  rewrite Verify_pass_run.
  destruct (call_CreateBatches_frame segments w) as [_ Hs].
  destruct (snd (fst (call_CreateBatches deps segments w))) as [e|]; simpl.
  - by rewrite Hs.
  - rewrite VerifyBatches_unfold.
    destruct (VerifyBatches_loop_frame deps (fst (fst (call_CreateBatches deps segments w)))
                (at_entry (fst (fst (call_CreateBatches deps segments w)))
                          (snd (call_CreateBatches deps segments w))))
      as (_ & -> & ->).
    simpl. by rewrite Hs.
Qed.

(** [Verify] up to the end of the first pass. *)
Lemma Verify_unfold (segments : list nat) (w : @World Ext) :
  Verify deps segments w =
    match fst (Verify_pass deps segments (after_init segments w)) with
    | Some e => (Some e, after_first_pass deps segments w)
    | None => Verify_retry deps segments (after_first_pass deps segments w)
    end.
Proof.
  unfold Verify, after_first_pass, after_init.
  unfold mbind at 1. unfold M_bind at 1.
  destruct (init_retry segments w) as [[] w1]. simpl.
  unfold mbind at 1. unfold M_bind at 1.
  by destruct (Verify_pass deps segments w1) as [[e|] w3].
Qed.

Lemma retry_segments_not_nil (h : nat -> Segment) (segments : list nat) :
  retry_segments h segments <> [] <->
  exists p : nat, p ∈ segments /\ 0 < Status_Retry (h p).
Proof.
  unfold retry_segments. split.
  - destruct (filter _ segments) as [|p rest] eqn:Hf; [done|]. intros _.
    exists p.
    assert (Hp : p ∈ filter (fun segment => 0 < Status_Retry (h segment)) segments)
      by (rewrite Hf; apply list_elem_of_here).
    apply list_elem_of_filter in Hp. tauto.
  - intros (p & Hin & Hpos) Hnil.
    assert (Hp : p ∈ filter (fun segment => 0 < Status_Retry (h segment)) segments)
      by (by apply list_elem_of_filter).
    rewrite Hnil in Hp. by apply not_elem_of_nil in Hp.
Qed.

(** The retry step: nothing when no retry is wanted, else the preparation
    of the retried segments and a pass over them. *)
Lemma Verify_retry_run (segments : list nat) (w3 : @World Ext) :
  let rs := retry_segments (heap w3) segments in
  Verify_retry deps segments w3 =
    if decide (rs <> [] /\ 0 < Config_Check (config (svc w3)))
    then Verify_pass deps rs (snd (prepare_retry rs w3))
    else (None, w3).
Proof.
  intros rs. unfold Verify_retry.
  unfold mbind at 1. unfold M_bind at 1. unfold gets at 1. fold rs.
  destruct rs as [|p rs'] eqn:Hrs; cbn [length Nat.eqb].
  - destruct (decide _) as [[Hne _]|_]; [done | reflexivity].
  - unfold mbind at 1. unfold M_bind at 1. unfold gets at 1.
    destruct (Z.leb_spec (Config_Check (config (svc w3))) 0) as [Hle|Hgt];
      destruct (decide _) as [[_ Hpos]|Hno]; try lia.
    + reflexivity.
    + unfold mbind at 1. unfold M_bind at 1.
      by destruct (prepare_retry (p :: rs') w3) as [[] w4].
    + exfalso. apply Hno. split; [done | lia].
Qed.

Lemma before_second_pass_frame (segments : list nat) (w : @World Ext) :
  trace (before_second_pass deps segments w) = trace (after_first_pass deps segments w) /\
  svc (before_second_pass deps segments w) = svc (after_first_pass deps segments w).
Proof.
  unfold before_second_pass.
  by destruct (prepare_retry_spec (retried deps segments w)
                 (after_first_pass deps segments w)) as (h' & -> & _).
Qed.

Lemma after_first_pass_config (segments : list nat) (w : @World Ext) :
  config (svc (after_first_pass deps segments w)) = config (svc w) /\
  priorityNodes (svc (after_first_pass deps segments w)) = priorityNodes (svc w).
Proof.
  unfold after_first_pass.
  destruct (Verify_pass_frame segments (after_init segments w)) as [-> ->].
  by destruct (after_init_frame segments w) as [_ ->].
Qed.

(** [Verify] from the end of a first pass without error on. *)
Lemma Verify_after_first_pass (segments : list nat) (w : @World Ext) :
  fst (Verify_pass deps segments (after_init segments w)) = None ->
  Verify deps segments w =
    if decide (retried deps segments w <> [] /\ 0 < Config_Check (config (svc w)))
    then Verify_pass deps (retried deps segments w) (before_second_pass deps segments w)
    else (None, after_first_pass deps segments w).
Proof.
  intros Hpass. rewrite Verify_unfold, Hpass, Verify_retry_run. cbv zeta.
  destruct (after_first_pass_config segments w) as [-> _]. done.
Qed.

(** C3.  The calls [Verify] makes, in order, are the batcher on all
    segments, [VerifyBatches] on its batches, the batcher on the retried
    segments, [VerifyBatches] on its batches, or a beginning of that
    sequence.  So [VerifyBatches] is called at most twice, first on the
    batches of all segments and then on those of the retried ones; there is
    no third pass. *)
Theorem C3_Verify_at_most_two_passes (segments : list nat) (w : @World Ext) :
  exists calls : list Call,
    trace (snd (Verify deps segments w)) = trace w ++ calls /\
    calls `prefix_of`
      [CallCreateBatches segments;
       CallVerifyBatches (first_batches deps segments w);
       CallCreateBatches (retried deps segments w);
       CallVerifyBatches (retry_batches deps segments w)] /\
    filter is_CallVerifyBatches calls `prefix_of`
      [CallVerifyBatches (first_batches deps segments w);
       CallVerifyBatches (retry_batches deps segments w)] /\
    (length (filter is_CallVerifyBatches calls) <= 2)%nat.
Proof.
  pose proof (after_init_frame segments w) as [Ht0 _].
  pose proof (Verify_pass_trace segments (after_init segments w)) as Ht1.
  fold (after_first_pass deps segments w) in Ht1.
  fold (first_batches deps segments w) in Ht1.
  rewrite Ht0 in Ht1.
  assert (Hshape : exists calls : list Call,
    trace (snd (Verify deps segments w)) = trace w ++ calls /\
    (calls = [CallCreateBatches segments] \/
     calls = [CallCreateBatches segments;
              CallVerifyBatches (first_batches deps segments w)] \/
     calls = [CallCreateBatches segments;
              CallVerifyBatches (first_batches deps segments w);
              CallCreateBatches (retried deps segments w)] \/
     calls = [CallCreateBatches segments;
              CallVerifyBatches (first_batches deps segments w);
              CallCreateBatches (retried deps segments w);
              CallVerifyBatches (retry_batches deps segments w)])).
  { destruct (fst (Verify_pass deps segments (after_init segments w))) as [e|] eqn:Hpass.
    - rewrite Verify_unfold, Hpass. cbn [snd]. eexists. split; [exact Ht1|].
      destruct (snd (fst (call_CreateBatches deps segments (after_init segments w))));
        tauto.
    - rewrite (Verify_pass_ok _ _ Hpass) in Ht1.
      rewrite (Verify_after_first_pass _ _ Hpass).
      destruct (decide _) as [Hretry|Hnone].
      + pose proof (Verify_pass_trace (retried deps segments w)
                      (before_second_pass deps segments w)) as Ht2.
        fold (retry_batches deps segments w) in Ht2.
        destruct (before_second_pass_frame segments w) as [Ht3 _].
        rewrite Ht3, Ht1, <- app_assoc in Ht2. cbn [app] in Ht2.
        eexists. split; [exact Ht2|].
        destruct (snd (fst (call_CreateBatches deps (retried deps segments w)
                                               (before_second_pass deps segments w))));
          tauto.
      + cbn [snd]. eexists. split; [exact Ht1|]. tauto. }
  destruct Hshape as (calls & Htrace & Hcases).
  exists calls. split; [exact Htrace|].
  destruct Hcases as [-> | [-> | [-> | ->]]];
    (split; [eexists; reflexivity | split; [eexists; reflexivity | simpl; lia]]).
Qed.

Lemma retry_wanted_iff (segments : list nat) (w : @World Ext) :
  retry_wanted deps segments w <->
  retried deps segments w <> [] /\ 0 < Config_Check (config (svc w)).
Proof.
  unfold retry_wanted, retried. by rewrite retry_segments_not_nil.
Qed.

(** C6 (as amended).  After a first pass without error, on an input list
    in which no segment occurs twice: [Verify] goes on to a second pass
    exactly when some segment has [Status.Retry > 0] and the configured check
    count is positive; that pass is one pass over the retried segments, which
    are the input segments with [Status.Retry > 0], in a state where each of
    them has its piece list reversed and without the pieces of priority
    nodes, and every other segment is as the first pass left it. *)
Theorem C6_second_pass_on_distinct_segments (segments : list nat) (w : @World Ext) :
  NoDup segments ->
  fst (Verify_pass deps segments (after_init segments w)) = None ->
  let w3 := after_first_pass deps segments w in
  let rs := retried deps segments w in
  let w4 := before_second_pass deps segments w in
  (forall p : nat, p ∈ rs <-> p ∈ segments /\ 0 < Status_Retry (heap w3 p)) /\
  (retry_wanted deps segments w ->
     Verify deps segments w = Verify_pass deps rs w4) /\
  (~ retry_wanted deps segments w ->
     Verify deps segments w = (None, w3)) /\
  (trace (snd (Verify deps segments w)) <> trace w3 <-> retry_wanted deps segments w) /\
  (forall p : nat, p ∈ rs ->
     AliasPieces (heap w4 p) =
       filter (fun x => Alias x ∉ priorityNodes (svc w)) (reverse (AliasPieces (heap w3 p))) /\
     Status_Retry (heap w4 p) = Status_Retry (heap w3 p)) /\
  (forall p : nat, p ∉ rs -> heap w4 p = heap w3 p) /\
  svc w4 = svc w3.
Proof.
  intros Hnodup Hpass w3 rs w4.
  pose proof (Verify_after_first_pass segments w Hpass) as Hrun.
  pose proof (retry_wanted_iff segments w) as Hwanted.
  fold rs w3 w4 in Hrun, Hwanted.
  assert (Hrs : forall p : nat, p ∈ rs <-> p ∈ segments /\ 0 < Status_Retry (heap w3 p)).
  { intros p. subst rs. unfold retried, retry_segments.
    rewrite list_elem_of_filter. fold w3. tauto. }
  assert (Hnodup_rs : NoDup rs).
  { subst rs. unfold retried, retry_segments. by apply NoDup_filter. }
  destruct (prepare_retry_spec rs w3) as (h' & Hprep & Hh').
  specialize (Hh' Hnodup_rs).
  assert (Hw4 : w4 = set_heap h' w3) by (subst w4; exact Hprep).
  destruct (after_first_pass_config segments w) as [_ Hprio]. fold w3 in Hprio.
  split_and!.
  - exact Hrs.
  - intros Hw. rewrite Hrun. rewrite decide_True; [done | by apply Hwanted].
  - intros Hw. rewrite Hrun. rewrite decide_False; [done | by rewrite <- Hwanted].
  - rewrite Hrun. destruct (decide _) as [Hyes|Hno].
    + split; [intros _; by apply Hwanted|]. intros _ Heq.
      rewrite Verify_pass_trace in Heq.
      rewrite Hw4 in Heq. simpl in Heq.
      rewrite <- (app_nil_r (trace w3)) in Heq at 2.
      by apply app_inv_head in Heq.
    + split; [done|]. intros Hw. by apply Hwanted in Hw.
  - intros p Hp. rewrite Hw4. simpl. rewrite Hh'.
    rewrite decide_True by done. unfold prepared. simpl. by rewrite Hprio.
  - intros p Hp. rewrite Hw4. simpl. rewrite Hh'. by rewrite decide_False.
  - by rewrite Hw4.
Qed.

End Passes.

(** A witness of C6: one segment, a verifier that leaves its budget alone;
    the second pass runs on that segment with its two pieces swapped. *)
Lemma C6_witness :
  NoDup [0%nat] /\
  fst (Verify_pass Scenario.deps_idle [0%nat] (after_init [0%nat] Scenario.retry_world)) = None /\
  retried Scenario.deps_idle [0%nat] Scenario.retry_world = [0%nat] /\
  AliasPieces (heap (before_second_pass Scenario.deps_idle [0%nat] Scenario.retry_world) 0%nat)
    = [mkAliasPiece 1 8; mkAliasPiece 0 7].
Proof.
  assert (Hnodup : NoDup [0%nat]) by (apply NoDup_singleton).
  assert (Hpass : fst (Verify_pass Scenario.deps_idle [0%nat]
                         (after_init [0%nat] Scenario.retry_world)) = None)
    by (vm_compute; reflexivity).
  destruct (C6_second_pass_on_distinct_segments Scenario.deps_idle [0%nat] Scenario.retry_world
              Hnodup Hpass) as (_ & _ & _ & _ & Hpieces & _).
  assert (Hrs : retried Scenario.deps_idle [0%nat] Scenario.retry_world = [0%nat])
    by (vm_compute; reflexivity).
  split; [exact Hnodup|]. split; [exact Hpass|]. split; [exact Hrs|].
  destruct (Hpieces 0%nat) as [Hp _].
  { rewrite Hrs. apply list_elem_of_here. }
  rewrite Hp. vm_compute. reflexivity.
Defined.

(** The claim C6 as stated fails on an input list that holds the same
    segment twice: the first pass returns no error, the segment keeps a
    positive budget and the check count is positive, so the second pass runs;
    the retry loop meets the segment twice and swaps its pieces back, and the
    second pass sees them in the order the first pass left them, not in the
    reverse order.  It also fails where the first pass returns an error (here
    alias 7 does not resolve): the segment has a positive budget and the
    check count is positive, and [Verify] returns without a second pass. *)
Lemma C6_counterexample_repeated_segment :
  let segments := [0%nat; 0%nat] in
  let w3 := after_first_pass Scenario.deps_idle segments Scenario.retry_world in
  let w4 := before_second_pass Scenario.deps_idle segments Scenario.retry_world in
  let failed := after_first_pass Scenario.deps_idle [0%nat] Scenario.fresh_world in
  (fst (Verify_pass Scenario.deps_idle segments (after_init segments Scenario.retry_world)) = None /\
   0 < Status_Retry (heap w3 0%nat) /\
   0 < Config_Check (config (svc Scenario.retry_world)) /\
   Verify Scenario.deps_idle segments Scenario.retry_world
     = Verify_pass Scenario.deps_idle [0%nat; 0%nat] w4 /\
   AliasPieces (heap w3 0%nat) = [mkAliasPiece 0 7; mkAliasPiece 1 8] /\
   AliasPieces (heap w4 0%nat) = [mkAliasPiece 0 7; mkAliasPiece 1 8] /\
   AliasPieces (heap w4 0%nat) <>
     filter (fun x => Alias x ∉ priorityNodes (svc Scenario.retry_world))
            (reverse (AliasPieces (heap w3 0%nat)))) /\
  (0 < Status_Retry (heap failed 0%nat) /\
   0 < Config_Check (config (svc Scenario.fresh_world)) /\
   fst (Verify Scenario.deps_idle [0%nat] Scenario.fresh_world) <> None /\
   trace (snd (Verify Scenario.deps_idle [0%nat] Scenario.fresh_world))
     = [CallCreateBatches [0%nat]; CallVerifyBatches [mkBatch 7 [0%nat]]]).
Proof.
  intros segments w3 w4 failed.
  split_and!; vm_compute; try reflexivity; discriminate.
Qed.

End VerifyProofs.

(** ** The ranged loop providers *)

Module RangedLoopProofs.

Import RangedLoop.

(** *** [CreateRanges] *)

Lemma CreateUUIDRanges_error (n : Z) :
  snd (CreateUUIDRanges n) = None <-> 0 < n.
Proof.
  unfold CreateUUIDRanges. destruct (Z.leb_spec n 0); simpl; split; try done; lia.
Qed.

Lemma CreateUUIDRanges_length (n : Z) :
  0 < n -> length (fst (CreateUUIDRanges n)) = Z.to_nat n.
Proof.
  intros Hn. unfold CreateUUIDRanges. destruct (Z.leb_spec n 0); [lia|].
  simpl. by rewrite length_map, length_seq.
Qed.

(** Appending one element per round builds the mapped list. *)
Lemma foldl_append_map {A B : Type} (f : A -> B) (xs : list A) (acc : list B) :
  foldl (fun acc x => acc ++ [f x]) acc xs = acc ++ map f xs.
Proof.
  revert acc. induction xs as [|x xs IH]; intros acc; simpl.
  - by rewrite app_nil_r.
  - rewrite IH, <- app_assoc. done.
Qed.

Section Ranges.

Context {Row : Type}.

(** [CreateRanges] fails as the splitter of the identifier space fails, on
    the [uint32] conversion of [nRanges]; otherwise it maps the ranges to
    providers. *)
Lemma CreateRanges_run (provider : @MetabaseRangeSplitter Row) (nRanges batchSize now : Z) :
  CreateRanges provider nRanges batchSize now =
    if GoInt.uint32 nRanges <=? 0
    then ([], snd (CreateUUIDRanges (GoInt.uint32 nRanges)))
    else (map (provider_for provider batchSize now)
              (fst (CreateUUIDRanges (GoInt.uint32 nRanges))), None).
Proof.
  unfold CreateRanges, CreateUUIDRanges.
  destruct (Z.leb_spec (GoInt.uint32 nRanges) 0); simpl; [done|].
  by rewrite foldl_append_map.
Qed.

Lemma CreateRanges_error (provider : @MetabaseRangeSplitter Row) (nRanges batchSize now : Z) :
  snd (CreateRanges provider nRanges batchSize now) = None <-> GoInt.uint32 nRanges <> 0.
Proof.
  rewrite CreateRanges_run.
  pose proof (GoIntFacts.uint32_range nRanges) as Hrange.
  destruct (Z.leb_spec (GoInt.uint32 nRanges) 0); simpl.
  - rewrite CreateUUIDRanges_error. lia.
  - split; [lia | done].
Qed.

(** C9 (as amended).  [CreateRanges] returns an error exactly when the
    [uint32] conversion of [nRanges] is 0; so it fails for [nRanges = 0], and
    for every [nRanges] from 1 to [2^32 - 1] it succeeds with [nRanges]
    providers.  Whenever it succeeds it returns one provider per UUID range
    of the splitter, in order, each with the splitter's database, the batch
    size given and the same as-of time. *)
Theorem C9_CreateRanges_fails_iff_uint32_zero
    (provider : @MetabaseRangeSplitter Row) (nRanges batchSize now : Z) :
  let result := CreateRanges provider nRanges batchSize now in
  let uuidRanges := fst (CreateUUIDRanges (GoInt.uint32 nRanges)) in
  (snd result <> None <-> GoInt.uint32 nRanges = 0) /\
  (nRanges = 0 -> snd result <> None) /\
  (1 <= nRanges < 2 ^ 32 ->
     snd result = None /\ length (fst result) = Z.to_nat nRanges) /\
  (snd result = None ->
     length (fst result) = length uuidRanges /\
     (forall (i : nat) (uuidRange : UUIDRange),
        uuidRanges !! i = Some uuidRange ->
        fst result !! i = Some (provider_for provider batchSize now uuidRange)) /\
     Forall (fun p => asOfSystemTime p = now) (fst result)).
Proof.
  intros result uuidRanges.
  pose proof (CreateRanges_error provider nRanges batchSize now) as Herr.
  fold result in Herr.
  assert (Hok : snd result = None ->
            fst result = map (provider_for provider batchSize now) uuidRanges).
  { intros Hnone. apply Herr in Hnone. subst result uuidRanges.
    rewrite CreateRanges_run.
    pose proof (GoIntFacts.uint32_range nRanges).
    destruct (Z.leb_spec (GoInt.uint32 nRanges) 0); [lia | done]. }
  split_and!.
  - rewrite Herr. destruct (decide (GoInt.uint32 nRanges = 0)); tauto.
  - intros -> Hnone. by apply Herr in Hnone.
  - intros Hn.
    assert (Hu : GoInt.uint32 nRanges = nRanges) by (apply GoIntFacts.uint32_id; lia).
    assert (Hnone : snd result = None) by (apply Herr; lia).
    split; [done|]. rewrite (Hok Hnone), length_map. subst uuidRanges.
    rewrite Hu. apply CreateUUIDRanges_length. lia.
  - intros Hnone. rewrite (Hok Hnone). split_and!.
    + by rewrite length_map.
    + intros i uuidRange Hi. by rewrite list_lookup_fmap, Hi.
    + apply Forall_forall.
      intros p Hp. apply list_elem_of_fmap in Hp as (r & -> & _). done.
Qed.

End Ranges.

(** A witness of C9: three ranges. *)
Lemma C9_witness :
  1 <= 3 < 2 ^ 32 /\
  snd (CreateRanges Scenario.empty_splitter 3 2500 1700000000) = None /\
  length (fst (CreateRanges Scenario.empty_splitter 3 2500 1700000000)) = Z.to_nat 3.
Proof.
  assert (Hn : 1 <= 3 < 2 ^ 32) by lia.
  destruct (C9_CreateRanges_fails_iff_uint32_zero Scenario.empty_splitter 3 2500 1700000000)
    as (_ & _ & Hsmall & _).
  split; [exact Hn | exact (Hsmall Hn)].
Defined.

(** The claim C9 as stated fails in both directions: [nRanges = -1] is not
    positive and [CreateRanges] returns no error, since [uint32(-1)] is
    [2^32 - 1]; and [nRanges = 2^32] is at least 1 and [CreateRanges] returns
    an error, since [uint32(2^32)] is 0. *)
Lemma C9_counterexample_negative_nRanges :
  -1 <= 0 /\
  GoInt.uint32 (-1) = 4294967295 /\
  snd (CreateRanges Scenario.empty_splitter (-1) 2500 1700000000) = None /\
  1 <= 4294967296 /\
  snd (CreateRanges Scenario.empty_splitter 4294967296 2500 1700000000) <> None.
Proof.
  split_and!; [lia | reflexivity | | lia | ].
  - apply CreateRanges_error. vm_compute. discriminate.
  - intros Hnone. apply CreateRanges_error in Hnone. by vm_compute in Hnone.
Qed.

(** *** [Iterate] *)

Section Iteration.

Context {Row St : Type} (fn : list Row -> St -> goerror * St).

Lemma chunked_lookup (size : Z) (batches : list (list Row)) :
  1 <= size ->
  chunked size batches ->
  forall (i : nat) (batch : list Row),
    batches !! i = Some batch ->
    0 < Z.of_nat (length batch) <= size /\
    ((i + 1 < length batches)%nat -> Z.of_nat (length batch) = size).
Proof.
  intros Hsize Hch. induction Hch as [|b Hb|b rest Hb Hrest IH]; intros i batch Hi.
  - done.
  - destruct i as [|i]; [|done]. injection Hi as <-. split; [done|]. simpl. lia.
  - destruct i as [|i].
    + injection Hi as <-. split; [lia | done].
    + destruct (IH i batch Hi) as [Hlen Hfull]. split; [done|].
      intros Hlt. apply Hfull. simpl in Hlt. lia.
Qed.

(** Whatever the context and the callback do, the loop hands over full
    batches, and a shorter one only as its last; when it returns no error
    the batches make up the pending rows and the rows still to come. *)
Lemma iterate_rows_batches (size : Z) (ctx : RunContext) (rows : list Row) :
  1 <= size ->
  forall (tick : nat) (segments : list Row) (st : St),
    Z.of_nat (length segments) < size ->
    chunked size (delivered (snd (iterate_rows fn size ctx rows tick segments st))) /\
    (fst (fst (iterate_rows fn size ctx rows tick segments st)) = None ->
     concat (delivered (snd (iterate_rows fn size ctx rows tick segments st)))
       = segments ++ rows).
Proof.
  intros Hsize. induction rows as [|row rest IH]; intros tick segments st Hlen.
  - cbn [iterate_rows].
    destruct (Z.ltb_spec 0 (Z.of_nat (length segments))) as [Hpos|Hzero].
    + destruct (fn segments st) as [err st']. simpl. rewrite !app_nil_r.
      split; [apply chunked_last; lia | done].
    + assert (segments = []) as -> by (apply length_zero_iff_nil; lia).
      simpl. split; [constructor | done].
  - cbn [iterate_rows]. destruct (ctx tick) as [e|].
    { simpl. split; [constructor | done]. }
    destruct (Z.leb_spec size (Z.of_nat (length (segments ++ [row])))) as [Hfull|Hpart].
    + assert (Hexact : Z.of_nat (length (segments ++ [row])) = size)
        by (rewrite length_app in *; simpl in *; lia).
      destruct (fn (segments ++ [row]) st) as [[e|] st'].
      * simpl. split; [|done]. apply chunked_full; [done | constructor].
      * specialize (IH (S tick) [] st').
        destruct (iterate_rows fn size ctx rest (S tick) [] st') as [[r st''] evs].
        simpl in *. destruct IH as (Hch & Hconcat); [lia|].
        split; [by apply chunked_full|].
        intros Hr. by rewrite (Hconcat Hr), <- app_assoc.
    + specialize (IH (S tick) (segments ++ [row]) st).
      destruct (iterate_rows fn size ctx rest (S tick) (segments ++ [row]) st)
        as [[r st'] evs].
      simpl in *. destruct IH as (Hch & Hconcat); [lia|].
      split; [done|]. intros Hr. by rewrite (Hconcat Hr), <- app_assoc.
Qed.

(** Without cancellation and without an error of the callback the loop
    returns no error. *)
Lemma iterate_rows_completes (size : Z) (ctx : RunContext) (rows : list Row) :
  (forall tick, ctx tick = None) ->
  (forall batch st, fst (fn batch st) = None) ->
  forall (tick : nat) (segments : list Row) (st : St),
    fst (fst (iterate_rows fn size ctx rows tick segments st)) = None.
Proof.
  intros Hctx Hfn. induction rows as [|row rest IH]; intros tick segments st.
  - cbn [iterate_rows]. destruct (0 <? Z.of_nat (length segments)); [|done].
    specialize (Hfn segments st). by destruct (fn segments st) as [err st'].
  - cbn [iterate_rows]. rewrite Hctx.
    destruct (size <=? Z.of_nat (length (segments ++ [row]))).
    + specialize (Hfn (segments ++ [row]) st).
      destruct (fn (segments ++ [row]) st) as [err st']. simpl in Hfn. subst err.
      specialize (IH (S tick) [] st').
      by destruct (iterate_rows fn size ctx rest (S tick) [] st') as [[r st''] evs].
    + specialize (IH (S tick) (segments ++ [row]) st).
      by destruct (iterate_rows fn size ctx rest (S tick) (segments ++ [row]) st)
        as [[r st'] evs].
Qed.

Lemma stops_single (ev : @Event Row) :
  stops_at_first_error (Event_result ev) [ev].
Proof.
  split.
  - intros pre ev' post e Heq Hres.
    destruct pre as [|x pre]; [|by destruct pre].
    injection Heq as <- <-. done.
  - intros e He. by exists [], ev.
Qed.

Lemma stops_cons (ev : @Event Row) (err : goerror) (evs : list Event) :
  Event_result ev = None ->
  stops_at_first_error err evs ->
  stops_at_first_error err (ev :: evs).
Proof.
  intros Hnone [Hfirst Hlast]. split.
  - intros pre ev' post e Heq Hres. destruct pre as [|x pre].
    + injection Heq as <- <-. congruence.
    + injection Heq as <- Heq. by apply (Hfirst pre ev' post e).
  - intros e He. destruct (Hlast e He) as (pre & ev' & -> & Hres).
    by exists (ev :: pre), ev'.
Qed.

(** Whatever the context and the callback do: the loop stops at the first
    error, returns it, records what [ctx.Err()] returned, and hands over
    rows in order and once. *)
Lemma iterate_rows_stops (size : Z) (ctx : RunContext) (rows : list Row) :
  forall (tick : nat) (segments : list Row) (st : St),
    stops_at_first_error (fst (fst (iterate_rows fn size ctx rows tick segments st)))
                         (snd (iterate_rows fn size ctx rows tick segments st)) /\
    (forall t r, EvCtxErr t r ∈ snd (iterate_rows fn size ctx rows tick segments st) ->
       r = ctx t) /\
    concat (delivered (snd (iterate_rows fn size ctx rows tick segments st)))
      `prefix_of` segments ++ rows.
Proof.
  induction rows as [|row rest IH]; intros tick segments st.
  - cbn [iterate_rows]. destruct (0 <? Z.of_nat (length segments)).
    + destruct (fn segments st) as [err st']. simpl. split_and!.
      * apply (stops_single (EvDeliver segments err)).
      * intros t r Hin. apply list_elem_of_singleton in Hin. done.
      * exists []. by rewrite !app_nil_r.
    + simpl. split_and!.
      * split; [intros pre ev post e Heq; by destruct pre | done].
      * intros t r Hin. by apply not_elem_of_nil in Hin.
      * apply prefix_nil.
  - cbn [iterate_rows]. destruct (ctx tick) as [e|] eqn:Hctx.
    { simpl. split_and!.
      - apply (stops_single (EvCtxErr tick (Some e))).
      - intros t r Hin. apply list_elem_of_singleton in Hin.
        injection Hin as -> ->. done.
      - by eexists. }
    destruct (size <=? Z.of_nat (length (segments ++ [row]))).
    + destruct (fn (segments ++ [row]) st) as [[e|] st'] eqn:Hcall.
      * simpl. split_and!.
        -- apply stops_cons; [done|].
           apply (stops_single (EvDeliver (segments ++ [row]) (Some e))).
        -- intros t r Hin. apply elem_of_cons in Hin as [Hin|Hin].
           ++ injection Hin as -> ->. done.
           ++ apply list_elem_of_singleton in Hin. done.
        -- exists rest. by rewrite app_nil_r, <- app_assoc.
      * specialize (IH (S tick) [] st').
        destruct (iterate_rows fn size ctx rest (S tick) [] st') as [[r st''] evs].
        simpl in *. destruct IH as (Hstops & Hctxs & [k Hk]). split_and!.
        -- by repeat apply stops_cons.
        -- intros t r' Hin. apply elem_of_cons in Hin as [Hin|Hin].
           ++ injection Hin as -> ->. done.
           ++ apply elem_of_cons in Hin as [Hin|Hin]; [done|]. by apply Hctxs.
        -- exists k. rewrite Hk, <- !app_assoc. done.
    + specialize (IH (S tick) (segments ++ [row]) st).
      destruct (iterate_rows fn size ctx rest (S tick) (segments ++ [row]) st)
        as [[r st'] evs].
      simpl in *. destruct IH as (Hstops & Hctxs & [k Hk]). split_and!.
      * by apply stops_cons.
      * intros t r' Hin. apply elem_of_cons in Hin as [Hin|Hin].
        -- injection Hin as -> ->. done.
        -- by apply Hctxs.
      * exists k. rewrite <- Hk, <- app_assoc. done.
Qed.

(** C7.  With a batch size of at least 1, the batches [Iterate] hands to the
    callback, one after the other, are pieces of the row sequence of the
    scan, in order: every batch but the last has exactly [batchSize] rows,
    and the last has at least one row and at most [batchSize].  When
    [Iterate] returns no error they make up the whole row sequence, every row
    once; and it returns no error when the context is not cancelled and the
    callback returns none. *)
Theorem C7_Iterate_delivers_all_rows_in_batches
    (provider : @MetabaseSegmentProvider Row) (ctx : RunContext) (st : St) :
  1 <= batchSize provider ->
  let err := fst (fst (Iterate fn provider ctx st)) in
  let batches := delivered (snd (Iterate fn provider ctx st)) in
  (forall (i : nat) (batch : list Row),
     batches !! i = Some batch ->
     0 < Z.of_nat (length batch) <= batchSize provider /\
     ((i + 1 < length batches)%nat -> Z.of_nat (length batch) = batchSize provider)) /\
  concat batches `prefix_of` scan_rows provider /\
  (err = None -> concat batches = scan_rows provider) /\
  ((forall tick, ctx tick = None) ->
   (forall batch st, fst (fn batch st) = None) ->
   err = None).
Proof.
  intros Hsize err batches. subst err batches.
  unfold Iterate, IterateLoopSegments. fold (scan_rows provider).
  destruct (iterate_rows_batches (batchSize provider) ctx (scan_rows provider)
              Hsize 0%nat [] st) as (Hch & Hconcat); [simpl; lia|].
  destruct (iterate_rows_stops (batchSize provider) ctx (scan_rows provider) 0%nat [] st)
    as (_ & _ & Hprefix).
  split_and!.
  - by apply chunked_lookup.
  - done.
  - done.
  - intros Hctx Hfn. by apply iterate_rows_completes.
Qed.

(** A run of the loop that returns no error has handed over every row,
    whatever the batch size. *)
Lemma iterate_rows_all (size : Z) (ctx : RunContext) (rows : list Row) :
  forall (tick : nat) (segments : list Row) (st : St),
    fst (fst (iterate_rows fn size ctx rows tick segments st)) = None ->
    concat (delivered (snd (iterate_rows fn size ctx rows tick segments st)))
      = segments ++ rows.
Proof.
  induction rows as [|row rest IH]; intros tick segments st.
  - cbn [iterate_rows].
    destruct (Z.ltb_spec 0 (Z.of_nat (length segments))) as [Hpos|Hzero].
    + destruct (fn segments st) as [err st']. simpl. by rewrite !app_nil_r.
    + assert (segments = []) as -> by (apply length_zero_iff_nil; lia). done.
  - cbn [iterate_rows]. destruct (ctx tick) as [e|]; [done|].
    destruct (size <=? Z.of_nat (length (segments ++ [row]))).
    + destruct (fn (segments ++ [row]) st) as [[e|] st']; [done|].
      specialize (IH (S tick) [] st').
      destruct (iterate_rows fn size ctx rest (S tick) [] st') as [[r st''] evs].
      simpl in *. intros Hr. by rewrite (IH Hr), <- app_assoc.
    + specialize (IH (S tick) (segments ++ [row]) st).
      destruct (iterate_rows fn size ctx rest (S tick) (segments ++ [row]) st)
        as [[r st'] evs].
      simpl in *. intros Hr. by rewrite (IH Hr), <- app_assoc.
Qed.

(** What the loop records for a batch is what the callback returned for
    it. *)
Lemma iterate_rows_results (size : Z) (ctx : RunContext) (rows : list Row) :
  forall (tick : nat) (segments : list Row) (st : St) (batch : list Row) (r : goerror),
    EvDeliver batch r ∈ snd (iterate_rows fn size ctx rows tick segments st) ->
    exists st0 : St, r = fst (fn batch st0).
Proof.
  induction rows as [|row rest IH]; intros tick segments st batch r.
  - cbn [iterate_rows]. destruct (0 <? Z.of_nat (length segments)).
    + destruct (fn segments st) as [err st'] eqn:Hcall. simpl. intros Hin.
      apply list_elem_of_singleton in Hin. injection Hin as -> ->.
      exists st. by rewrite Hcall.
    + simpl. intros Hin. by apply not_elem_of_nil in Hin.
  - cbn [iterate_rows]. destruct (ctx tick) as [e|].
    { simpl. intros Hin. by apply list_elem_of_singleton in Hin. }
    destruct (size <=? Z.of_nat (length (segments ++ [row]))).
    + destruct (fn (segments ++ [row]) st) as [[e|] st'] eqn:Hcall.
      * simpl. intros Hin. apply elem_of_cons in Hin as [Hin|Hin]; [done|].
        apply list_elem_of_singleton in Hin. injection Hin as -> ->.
        exists st. by rewrite Hcall.
      * specialize (IH (S tick) [] st' batch r).
        destruct (iterate_rows fn size ctx rest (S tick) [] st') as [[r' st''] evs].
        simpl in *. intros Hin. apply elem_of_cons in Hin as [Hin|Hin]; [done|].
        apply elem_of_cons in Hin as [Hin|Hin]; [|by apply IH].
        injection Hin as -> ->. exists st. by rewrite Hcall.
    + specialize (IH (S tick) (segments ++ [row]) st batch r).
      destruct (iterate_rows fn size ctx rest (S tick) (segments ++ [row]) st)
        as [[r' st'] evs].
      simpl in *. intros Hin. apply elem_of_cons in Hin as [Hin|Hin]; [done|].
      by apply IH.
Qed.

(** The loop reads the context before every row: in a run in which the
    callback has returned no error, the first check that reports a
    cancellation ends the loop with the context's error, and no row from
    that check on has been handed over. *)
Lemma iterate_rows_sees_cancellation (size : Z) (ctx : RunContext) (e : error)
    (rows : list Row) :
  forall (k tick : nat) (segments : list Row) (st : St),
    (k < length rows)%nat ->
    (forall j : nat, (j < k)%nat -> ctx (tick + j)%nat = None) ->
    ctx (tick + k)%nat = Some e ->
    (forall batch r,
       EvDeliver batch r ∈ snd (iterate_rows fn size ctx rows tick segments st) ->
       r = None) ->
    fst (fst (iterate_rows fn size ctx rows tick segments st)) = Some e /\
    last (snd (iterate_rows fn size ctx rows tick segments st))
      = Some (EvCtxErr (tick + k) (Some e)) /\
    exists pending : list Row,
      segments ++ take k rows
        = concat (delivered (snd (iterate_rows fn size ctx rows tick segments st)))
          ++ pending.
Proof.
  induction rows as [|row rest IH];
    intros k tick segments st Hk Hbefore Hat; [simpl in Hk; lia|].
  cbn [iterate_rows]. destruct k as [|k].
  - rewrite Nat.add_0_r in Hat |- *. rewrite Hat. simpl. intros _.
    split_and!; [done | done |]. exists segments. by rewrite app_nil_r.
  - assert (Hnow : ctx tick = None).
    { specialize (Hbefore 0%nat ltac:(lia)). by rewrite Nat.add_0_r in Hbefore. }
    rewrite Hnow.
    assert (Hbefore' : forall j : nat, (j < k)%nat -> ctx (S tick + j)%nat = None).
    { intros j Hj. specialize (Hbefore (S j) ltac:(lia)).
      by replace (tick + S j)%nat with (S tick + j)%nat in Hbefore by lia. }
    assert (Hat' : ctx (S tick + k)%nat = Some e)
      by (by replace (S tick + k)%nat with (tick + S k)%nat by lia).
    replace (tick + S k)%nat with (S tick + k)%nat by lia.
    simpl in Hk.
    destruct (size <=? Z.of_nat (length (segments ++ [row]))).
    + destruct (fn (segments ++ [row]) st) as [[e'|] st'].
      * simpl. intros Hdel.
        specialize (Hdel (segments ++ [row]) (Some e')).
        discriminate Hdel. set_solver.
      * specialize (IH k (S tick) [] st' ltac:(lia) Hbefore' Hat').
        destruct (iterate_rows fn size ctx rest (S tick) [] st') as [[r st''] evs].
        simpl in *. intros Hdel.
        destruct IH as (Hr & Hlast & pending & Heq).
        { intros batch r' Hin. apply (Hdel batch r'). set_solver. }
        split_and!; [done | by rewrite !last_cons, Hlast |].
        exists pending. rewrite <- !app_assoc, <- Heq. done.
    + specialize (IH k (S tick) (segments ++ [row]) st ltac:(lia) Hbefore' Hat').
      destruct (iterate_rows fn size ctx rest (S tick) (segments ++ [row]) st)
        as [[r st'] evs].
      simpl in *. intros Hdel.
      destruct IH as (Hr & Hlast & pending & Heq).
      { intros batch r' Hin. apply (Hdel batch r'). set_solver. }
      split_and!; [done | by rewrite last_cons, Hlast |].
      exists pending. rewrite <- Heq, <- app_assoc. done.
Qed.

(** C8.  For a batch size that is not negative, in the events of a run of
    [Iterate]: an event with an error, be it a [ctx.Err()] at an iteration
    boundary or a call of the callback, is the last event, so no batch is
    handed over after it, and its error is what [Iterate] returns; an error
    [Iterate] returns is that of its last event.  The context is read before
    every row: if the check before row [k] is the first to report a
    cancellation and the callback has returned no error, [Iterate] returns
    the context's error, that check is the last event, and only rows before
    row [k] have been handed over.  What is recorded for a batch is what the
    callback returned for it, and a run that returns nil has handed over
    every row.  The batches handed over are consecutive pieces of a
    beginning of the row sequence, so no row and no batch is handed over
    twice. *)
Theorem C8_Iterate_stops_at_first_error
    (provider : @MetabaseSegmentProvider Row) (ctx : RunContext) (st : St) :
  0 <= batchSize provider ->
  let err := fst (fst (Iterate fn provider ctx st)) in
  let evs := snd (Iterate fn provider ctx st) in
  (forall pre ev post e,
     evs = pre ++ ev :: post -> Event_result ev = Some e -> post = [] /\ err = Some e) /\
  (forall e, err = Some e -> exists pre ev, evs = pre ++ [ev] /\ Event_result ev = Some e) /\
  (forall tick r, EvCtxErr tick r ∈ evs -> r = ctx tick) /\
  (forall batch r, EvDeliver batch r ∈ evs -> exists st0 : St, r = fst (fn batch st0)) /\
  (forall (k : nat) (e : error),
     (k < length (scan_rows provider))%nat ->
     (forall j : nat, (j < k)%nat -> ctx j = None) ->
     ctx k = Some e ->
     (forall batch r, EvDeliver batch r ∈ evs -> r = None) ->
     err = Some e /\
     last evs = Some (EvCtxErr k (Some e)) /\
     concat (delivered evs) `prefix_of` take k (scan_rows provider)) /\
  (err = None -> concat (delivered evs) = scan_rows provider) /\
  concat (delivered evs) `prefix_of` scan_rows provider.
Proof.
  intros _ err evs. subst err evs.
  unfold Iterate, IterateLoopSegments. fold (scan_rows provider).
  destruct (iterate_rows_stops (batchSize provider) ctx (scan_rows provider) 0%nat [] st)
    as ([Hfirst Hlast] & Hctxs & Hprefix).
  split_and!; try done.
  - intros batch r. apply iterate_rows_results.
  - intros k e Hk Hbefore Hat Hdel.
    destruct (iterate_rows_sees_cancellation (batchSize provider) ctx e
                (scan_rows provider) k 0%nat [] st Hk Hbefore Hat Hdel)
      as (Herr & Hend & pending & Heq).
    split_and!; [done | done |]. exists pending. done.
  - apply iterate_rows_all.
Qed.

End Iteration.

(** A witness of C7: five rows in batches of two arrive as two full batches
    and a last batch of one row. *)
Lemma C7_witness :
  1 <= batchSize Scenario.five_rows /\
  fst (fst (Iterate Scenario.collect Scenario.five_rows Scenario.background [])) = None /\
  concat (delivered (snd (Iterate Scenario.collect Scenario.five_rows Scenario.background [])))
    = [1; 2; 3; 4; 5]%nat /\
  snd (fst (Iterate Scenario.collect Scenario.five_rows Scenario.background []))
    = [[1; 2]; [3; 4]; [5]]%nat.
Proof.
  assert (Hsize : 1 <= batchSize Scenario.five_rows) by (vm_compute; discriminate).
  destruct (C7_Iterate_delivers_all_rows_in_batches Scenario.collect Scenario.five_rows Scenario.background []
              Hsize) as (_ & _ & Hconcat & Hcomplete).
  assert (Herr : fst (fst (Iterate Scenario.collect Scenario.five_rows Scenario.background [])) = None)
    by (apply Hcomplete; intros; reflexivity).
  split; [exact Hsize|]. split; [exact Herr|]. split; [exact (Hconcat Herr)|].
  vm_compute. reflexivity.
Defined.

(** A witness of C8: five rows in batches of two under a context that is
    cancelled from the check before the fourth row on; [Iterate] returns the
    context's error after one batch. *)
Lemma C8_witness :
  0 <= batchSize Scenario.five_rows /\
  fst (fst (Iterate Scenario.collect Scenario.five_rows Scenario.cancelled_at_3 []))
    = Some Scenario.cancelled /\
  last (snd (Iterate Scenario.collect Scenario.five_rows Scenario.cancelled_at_3 []))
    = Some (EvCtxErr 3 (Some Scenario.cancelled)) /\
  delivered (snd (Iterate Scenario.collect Scenario.five_rows Scenario.cancelled_at_3 []))
    = [[1; 2]]%nat.
Proof.
  assert (Hsize : 0 <= batchSize Scenario.five_rows) by (vm_compute; discriminate).
  assert (Hk : (3 < length (scan_rows Scenario.five_rows))%nat) by (vm_compute; lia).
  assert (Hbefore : forall j : nat, (j < 3)%nat -> Scenario.cancelled_at_3 j = None).
  { intros j Hj. unfold Scenario.cancelled_at_3.
    destruct (Nat.ltb_spec j 3); [done | lia]. }
  assert (Hat : Scenario.cancelled_at_3 3%nat = Some Scenario.cancelled) by reflexivity.
  assert (Hevs : snd (Iterate Scenario.collect Scenario.five_rows
                              Scenario.cancelled_at_3 [])
                 = [EvCtxErr 0 None; EvCtxErr 1 None; EvDeliver [1; 2]%nat None;
                    EvCtxErr 2 None; EvCtxErr 3 (Some Scenario.cancelled)])
    by (vm_compute; reflexivity).
  destruct (C8_Iterate_stops_at_first_error Scenario.collect Scenario.five_rows
              Scenario.cancelled_at_3 [] Hsize) as (_ & _ & _ & _ & Hcancel & _).
  destruct (Hcancel 3%nat Scenario.cancelled Hk Hbefore Hat) as (Herr & Hend & _).
  { intros batch r. rewrite Hevs. intros Hin.
    repeat (apply elem_of_cons in Hin as [Hin|Hin];
            [first [discriminate Hin | by injection Hin as _ <-]|]).
    by apply not_elem_of_nil in Hin. }
  split; [exact Hsize|]. split; [exact Herr|]. split; [exact Hend|].
  rewrite Hevs. reflexivity.
Defined.

End RangedLoopProofs.

(** * Further properties of the code *)

(** ** The encoders of the migration tool *)

Module EncodersProofs.

Import MigrationMetabase.

Lemma uint64_of_uint32 (z : Z) : is_uint32 z -> uint64 z = z.
Proof. unfold is_uint32, uint64. intros Hz. apply Z.mod_small. lia. Qed.

(** On [uint32] values the shift loses no bit and the [or] is an addition. *)
Lemma EncodeSegmentPosition_sum (part segment : Z) :
  is_uint32 part -> is_uint32 segment ->
  EncodeSegmentPosition part segment = part * 2 ^ 32 + segment.
Proof.
  intros Hp Hs. unfold EncodeSegmentPosition, shl64.
  rewrite (uint64_of_uint32 part), (uint64_of_uint32 segment) by done.
  unfold is_uint32 in *.
  rewrite Z.shiftl_mul_pow2 by lia.
  unfold uint64. rewrite (Z.mod_small (part * 2 ^ 32)) by lia.
  assert (Hland : Z.land (part * 2 ^ 32) segment = 0).
  { apply Z.bits_inj'. intros n Hn. rewrite Z.land_spec, Z.bits_0.
    destruct (Z.lt_ge_cases n 32) as [Hlt|Hge].
    - rewrite Z.mul_pow2_bits_low by lia. done.
    - rewrite (Z.bits_above_log2 segment n); [by rewrite andb_false_r | lia |].
      destruct (decide (segment = 0)) as [->|Hne]; [simpl; lia|].
      apply Z.log2_lt_pow2; [lia|].
      apply Z.lt_le_trans with (2 ^ 32); [lia|]. apply Z.pow_le_mono_r; lia. }
  rewrite <- Z.lxor_lor by done. by rewrite <- Z.add_nocarry_lxor.
Qed.

(** X17.  A segment position of two [uint32] fields encodes to
    [Part * 2^32 + Segment], a [uint64]; [SegmentPosition.Encode] and
    [EncodeSegmentPosition] agree, and the fields are read back by a right
    shift by 32 and by a mask of the low 32 bits. *)
Theorem X17_SegmentPosition_Encode_round_trip (pos : SegmentPosition) :
  is_uint32 (Part pos) -> is_uint32 (Segment pos) ->
  SegmentPosition_Encode pos = EncodeSegmentPosition (Part pos) (Segment pos) /\
  SegmentPosition_Encode pos = Part pos * 2 ^ 32 + Segment pos /\
  0 <= SegmentPosition_Encode pos < 2 ^ 64 /\
  Z.shiftr (SegmentPosition_Encode pos) 32 = Part pos /\
  Z.land (SegmentPosition_Encode pos) (2 ^ 32 - 1) = Segment pos.
Proof.
  intros Hp Hs.
  pose proof (EncodeSegmentPosition_sum (Part pos) (Segment pos) Hp Hs) as Hsum.
  change (EncodeSegmentPosition (Part pos) (Segment pos))
    with (SegmentPosition_Encode pos) in Hsum.
  unfold is_uint32 in *. split_and!.
  - reflexivity.
  - exact Hsum.
  - rewrite Hsum. lia.
  - rewrite Hsum. lia.
  - rewrite Hsum, Z.shiftr_div_pow2 by lia.
    rewrite Z.div_add_l by lia. rewrite Z.div_small by lia. lia.
  - rewrite Hsum. change (2 ^ 32 - 1) with (Z.ones 32).
    rewrite Z.land_ones by lia.
    rewrite Z.add_comm, Z.mod_add by lia. apply Z.mod_small. lia.
Qed.

(** A witness of X17: part 3, segment 7. *)
Lemma X17_witness :
  is_uint32 3 /\ is_uint32 7 /\
  SegmentPosition_Encode (mkSegmentPosition 3 7) = 3 * 2 ^ 32 + 7 /\
  Z.shiftr (SegmentPosition_Encode (mkSegmentPosition 3 7)) 32 = 3.
Proof.
  assert (H3 : is_uint32 3) by (unfold is_uint32; lia).
  assert (H7 : is_uint32 7) by (unfold is_uint32; lia).
  destruct (X17_SegmentPosition_Encode_round_trip (mkSegmentPosition 3 7) H3 H7)
    as (_ & Hsum & _ & Hpart & _).
  split; [exact H3|]. split; [exact H7|]. split; [exact Hsum | exact Hpart].
Defined.

(** X18.  On [uint32] arguments [EncodeSegmentPosition] orders positions by
    part and then by segment, so two positions with the same code are the
    same position. *)
Theorem X18_EncodeSegmentPosition_ordered (p1 s1 p2 s2 : Z) :
  is_uint32 p1 -> is_uint32 s1 -> is_uint32 p2 -> is_uint32 s2 ->
  (EncodeSegmentPosition p1 s1 < EncodeSegmentPosition p2 s2 <->
     p1 < p2 \/ (p1 = p2 /\ s1 < s2)) /\
  (EncodeSegmentPosition p1 s1 = EncodeSegmentPosition p2 s2 <-> p1 = p2 /\ s1 = s2).
Proof.
  intros Hp1 Hs1 Hp2 Hs2.
  rewrite !EncodeSegmentPosition_sum by done.
  unfold is_uint32 in *. split; lia.
Qed.

(** A witness of X18: (1, 9) comes before (2, 0). *)
Lemma X18_witness :
  is_uint32 1 /\ is_uint32 9 /\ is_uint32 2 /\ is_uint32 0 /\
  EncodeSegmentPosition 1 9 < EncodeSegmentPosition 2 0.
Proof.
  assert (H1 : is_uint32 1) by (unfold is_uint32; lia).
  assert (H9 : is_uint32 9) by (unfold is_uint32; lia).
  assert (H2 : is_uint32 2) by (unfold is_uint32; lia).
  assert (H0 : is_uint32 0) by (unfold is_uint32; lia).
  split; [exact H1|]. split; [exact H9|]. split; [exact H2|]. split; [exact H0|].
  apply (X18_EncodeSegmentPosition_ordered 1 9 2 0 H1 H9 H2 H0). lia.
Defined.

(** The loop fills the slice from index [length filled] on. *)
Lemma Encode_loop_spec (aliases filled : list Z) :
  Encode_loop (length filled) aliases (filled ++ replicate (length aliases) 0)
  = filled ++ map GoInt.int32 aliases.
Proof.
  revert filled. induction aliases as [|v aliases IH]; intros filled; [done|].
  cbn [Encode_loop length replicate map].
  replace (length filled) with (length filled + 0)%nat at 2 by lia.
  rewrite insert_app_r. cbn [insert list_insert].
  pose proof (IH (filled ++ [GoInt.int32 v])) as Hrec.
  rewrite length_app in Hrec. cbn [length] in Hrec.
  replace (length filled + 1)%nat with (S (length filled)) in Hrec by lia.
  rewrite <- !app_assoc in Hrec. exact Hrec.
Qed.

(** X19.  [NodeAliases.Encode] returns a slice as long as the aliases that
    holds the [int32] conversion of each alias at the alias's index; the
    aliases being [int32] values, it holds the aliases themselves. *)
Theorem X19_NodeAliases_Encode_same_values (aliases : list Z) :
  Forall (fun v => GoInt.min_int32 <= v <= GoInt.max_int32) aliases ->
  NodeAliases_Encode aliases = aliases /\
  length (NodeAliases_Encode aliases) = length aliases /\
  forall (i : nat) (v : Z), aliases !! i = Some v -> NodeAliases_Encode aliases !! i = Some v.
Proof.
  intros Hrange.
  assert (Heq : NodeAliases_Encode aliases = aliases).
  { unfold NodeAliases_Encode.
    pose proof (Encode_loop_spec aliases []) as Hloop. simpl in Hloop.
    rewrite Hloop. clear Hloop.
    induction Hrange as [|v rest Hv Hrest IH]; [done|].
    simpl. by rewrite IH, GoIntFacts.int32_id. }
  rewrite Heq. done.
Qed.

(** A witness of X19: three aliases, one of them negative. *)
Lemma X19_witness :
  Forall (fun v => GoInt.min_int32 <= v <= GoInt.max_int32) [7; -1; 2147483647] /\
  NodeAliases_Encode [7; -1; 2147483647] = [7; -1; 2147483647].
Proof.
  assert (Hrange : Forall (fun v => GoInt.min_int32 <= v <= GoInt.max_int32)
                          [7; -1; 2147483647]).
  { repeat constructor; unfold GoInt.min_int32, GoInt.max_int32; lia. }
  split; [exact Hrange|].
  apply (X19_NodeAliases_Encode_same_values [7; -1; 2147483647] Hrange).
Defined.

End EncodersProofs.

(** ** More on the node alias resolver *)

Module ResolverMoreProofs.

Import SegmentVerify ResolverProofs.

Lemma Has_wrap_in (class : string) (e : error) : Has class (wrap_in class e) = true.
Proof.
  destruct e as [msg|c cause]; simpl.
  - by rewrite String.eqb_refl.
  - destruct (String.eqb c class) eqn:Hc; simpl.
    + by rewrite Hc.
    + by rewrite String.eqb_refl.
Qed.

Lemma Wrap_in_class (class : string) (err : goerror) (e : error) :
  Wrap class err = Some e -> Has class e = true.
Proof.
  destruct err as [e'|]; simpl; [|done]. intros [= <-]. apply Has_wrap_in.
Qed.

Section ResolverMore.

Context {Ext : Type} (deps : @Collaborators Ext).

(** X1.  When [convertAliasToNodeURL] returns an error, the URL it returns
    is the zero value and the error is of the package's class [Error]; the
    same holds of [GetNodeInfo] and the zero [NodeInfo]. *)
Theorem X1_resolver_error_has_zero_value_and_class
    (alias : Z) (w : @World Ext) (e : error) :
  (snd (fst (convertAliasToNodeURL deps alias w)) = Some e ->
     fst (fst (convertAliasToNodeURL deps alias w)) = NodeURL_zero /\
     Has Error e = true) /\
  (snd (fst (GetNodeInfo deps alias w)) = Some e ->
     fst (fst (GetNodeInfo deps alias w)) = NodeInfo_zero /\
     Has Error e = true).
Proof.
  split.
  - unfold convertAliasToNodeURL, Node, call_overlay_Get, call_LatestNodesAliasMap,
      modify_svc, modify, gets. unfold mbind, M_bind, mret, M_ret. simpl.
    destruct (aliasToNodeURL (svc w) !! alias); simpl; [done|].
    destruct (aliasMap (svc w) !! alias); simpl.
    + destruct (overlay_Get deps _ (ext w)) as [[info [e'|]] x]; simpl; [|done].
      intros [= <-]. split; [done | apply Has_wrap_in].
    + destruct (metabase_LatestNodesAliasMap deps (ext w)) as [[latest err] x]; simpl.
      intros Herr. split; [done | by apply (Wrap_in_class _ err)].
  - unfold GetNodeInfo, call_overlay_Get, modify_svc, modify, gets.
    unfold mbind, M_bind, mret, M_ret.
    destruct (convertAliasToNodeURL deps alias w) as [[url [e'|]] w1]; simpl.
    + intros [= <-]. split; [done | apply Has_wrap_in].
    + destruct (nodesVersionMap (svc w1) !! alias); simpl; [done|].
      destruct (overlay_Get deps _ (ext w1)) as [[info [e'|]] x]; simpl; [|done].
      intros [= <-]. split; [done | apply Has_wrap_in].
Qed.

(** What the resolver keeps: the local alias table, and every node URL
    already in the cache. *)
Lemma convertAliasToNodeURL_keeps (alias : Z) (w : @World Ext) :
  aliasMap (svc (snd (convertAliasToNodeURL deps alias w))) = aliasMap (svc w) /\
  forall (a : Z) (url : NodeURL),
    aliasToNodeURL (svc w) !! a = Some url ->
    aliasToNodeURL (svc (snd (convertAliasToNodeURL deps alias w))) !! a = Some url.
Proof.
  unfold convertAliasToNodeURL, Node, call_overlay_Get, call_LatestNodesAliasMap,
    modify_svc, modify, gets. unfold mbind, M_bind, mret, M_ret. simpl.
  destruct (aliasToNodeURL (svc w) !! alias) eqn:Hcache; simpl; [done|].
  destruct (aliasMap (svc w) !! alias); simpl.
  - destruct (overlay_Get deps _ (ext w)) as [[info [e'|]] x]; simpl; [done|].
    split; [done|]. intros a url Ha.
    rewrite lookup_insert_ne; [done | congruence].
  - by destruct (metabase_LatestNodesAliasMap deps (ext w)) as [[latest err] x].
Qed.

(** X4.  [GetNodeInfo] changes the two caches and the outside world, and
    nothing else: the local alias table, the configuration, the priority and
    online sets, the strike counters, the segments and the call trace are as
    before, and a node URL that was in the cache is still there. *)
Theorem X4_GetNodeInfo_changes_caches_only (alias : Z) (w : @World Ext) :
  let w' := snd (GetNodeInfo deps alias w) in
  aliasMap (svc w') = aliasMap (svc w) /\
  config (svc w') = config (svc w) /\
  priorityNodes (svc w') = priorityNodes (svc w) /\
  onlineNodes (svc w') = onlineNodes (svc w) /\
  offlineCount (svc w') = offlineCount (svc w) /\
  heap w' = heap w /\
  trace w' = trace w /\
  forall (a : Z) (url : NodeURL),
    aliasToNodeURL (svc w) !! a = Some url -> aliasToNodeURL (svc w') !! a = Some url.
Proof.
  intros w'.
  destruct (GetNodeInfo_frame deps alias w) as (Ht & Hh & Hc & Hp & Ho & Hn).
  fold w' in Ht, Hh, Hc, Hp, Ho, Hn.
  assert (Hkeep : aliasMap (svc w') = aliasMap (svc w) /\
    forall (a : Z) (url : NodeURL),
      aliasToNodeURL (svc w) !! a = Some url -> aliasToNodeURL (svc w') !! a = Some url).
  { subst w'. unfold GetNodeInfo, call_overlay_Get, modify_svc, modify, gets.
    unfold mbind, M_bind, mret, M_ret.
    pose proof (convertAliasToNodeURL_keeps alias w) as [Hmap Hurls].
    destruct (convertAliasToNodeURL deps alias w) as [[url [e'|]] w1]; simpl in *; [done|].
    destruct (nodesVersionMap (svc w1) !! alias); simpl; [done|].
    by destruct (overlay_Get deps _ (ext w1)) as [[info [e'|]] x]. }
  destruct Hkeep as [Hmap Hurls]. split_and!; done.
Qed.

(** X3.  [GetNodeInfo] memoizes: after a call without error on an alias
    that the cache or the local alias table holds, both caches hold what was
    returned, and a second call returns the same [NodeInfo] and changes
    nothing, whatever the collaborators would answer. *)
Theorem X3_GetNodeInfo_memoizes (alias : Z) (w : @World Ext) :
  is_Some (aliasToNodeURL (svc w) !! alias) \/ is_Some (aliasMap (svc w) !! alias) ->
  snd (fst (GetNodeInfo deps alias w)) = None ->
  let info := fst (fst (GetNodeInfo deps alias w)) in
  let w' := snd (GetNodeInfo deps alias w) in
  aliasToNodeURL (svc w') !! alias = Some (NodeURL_of info) /\
  nodesVersionMap (svc w') !! alias = Some (Version info) /\
  GetNodeInfo deps alias w' = (info, None, w').
Proof.
  intros Hknown Hok info w'.
  assert (Hcaches : aliasToNodeURL (svc w') !! alias = Some (NodeURL_of info) /\
                    nodesVersionMap (svc w') !! alias = Some (Version info)).
  { subst info w'. revert Hok.
    unfold GetNodeInfo, convertAliasToNodeURL, Node, call_overlay_Get,
      call_LatestNodesAliasMap, modify_svc, modify, gets.
    unfold mbind, M_bind, mret, M_ret. simpl.
    destruct (aliasToNodeURL (svc w) !! alias) as [url|] eqn:Hcache; simpl.
    - destruct (nodesVersionMap (svc w) !! alias) as [version|] eqn:Hver; simpl; [done|].
      destruct (overlay_Get deps _ (ext w)) as [[i [e'|]] x]; simpl; [done|].
      intros _. by rewrite lookup_insert_eq.
    - destruct Hknown as [[? ?]|[id Hid]]; [done|]. rewrite Hid. simpl.
      destruct (overlay_Get deps id (ext w)) as [[i [e'|]] x]; simpl; [done|].
      rewrite !lookup_insert_eq. simpl. intros _. by rewrite ?lookup_insert_eq. }
  destruct Hcaches as [Hurl Hver]. split; [done|]. split; [done|].
  destruct info as [version url]. by apply GetNodeInfo_cached.
Qed.

End ResolverMore.

(** A witness of X3: alias 7 is in the local alias table and the directory
    knows its node. *)
Lemma X3_witness :
  (is_Some (aliasToNodeURL (svc Scenario.retry_world) !! 7) \/
     is_Some (aliasMap (svc Scenario.retry_world) !! 7)) /\
  snd (fst (GetNodeInfo Scenario.deps_idle 7 Scenario.retry_world)) = None /\
  GetNodeInfo Scenario.deps_idle 7
    (snd (GetNodeInfo Scenario.deps_idle 7 Scenario.retry_world))
  = (fst (fst (GetNodeInfo Scenario.deps_idle 7 Scenario.retry_world)), None,
     snd (GetNodeInfo Scenario.deps_idle 7 Scenario.retry_world)).
Proof.
  assert (Hknown : is_Some (aliasToNodeURL (svc Scenario.retry_world) !! 7) \/
                   is_Some (aliasMap (svc Scenario.retry_world) !! 7))
    by (right; eexists; reflexivity).
  assert (Hok : snd (fst (GetNodeInfo Scenario.deps_idle 7 Scenario.retry_world)) = None)
    by (vm_compute; reflexivity).
  destruct (X3_GetNodeInfo_memoizes Scenario.deps_idle 7 Scenario.retry_world Hknown Hok)
    as (_ & _ & Hagain).
  split; [exact Hknown|]. split; [exact Hok | exact Hagain].
Defined.

End ResolverMoreProofs.

(** ** More on the node health bookkeeping *)

Module HealthMoreProofs.

Import SegmentVerify HealthProofs.

(** One outcome moves the counter of its alias by at most one and keeps it
    from going below zero. *)
Lemma reconcile_count_step (alias v : Z) (err : goerror) (s : Service) :
  0 <= count_of (offlineCount s) alias < GoInt.max_int ->
  0 <= count_of (offlineCount (reconcile alias v err s)) alias /\
  count_of (offlineCount s) alias - 1
    <= count_of (offlineCount (reconcile alias v err s)) alias
    <= count_of (offlineCount s) alias + 1.
Proof.
  intros Hc. unfold reconcile. destruct err as [e|].
  - destruct (Has ErrNodeOffline e); [|lia].
    destruct (decide (v = 0)) as [->|Hv]; [simpl; lia|].
    rewrite on_node_offline_count by done.
    rewrite GoIntFacts.incr_no_overflow; unfold GoInt.min_int, GoInt.max_int in *; lia.
  - rewrite on_batch_success_count. case_decide; [|lia].
    rewrite GoIntFacts.decr_positive; unfold GoInt.max_int in *; lia.
Qed.

(** X6.  A batch without error undoes one strike: after an offline batch
    with some piece verified and then a batch without error for the same
    alias, the strike counter is what it was, and the second batch leaves the
    online set as the first one left it. *)
Theorem X6_success_undoes_one_strike
    (s : Service) (alias v v' : Z) (e : error) :
  Has ErrNodeOffline e = true ->
  v <> 0 ->
  0 <= count_of (offlineCount s) alias < GoInt.max_int ->
  let struck := reconcile alias v (Some e) s in
  let recovered := reconcile alias v' None struck in
  count_of (offlineCount struck) alias = count_of (offlineCount s) alias + 1 /\
  count_of (offlineCount recovered) alias = count_of (offlineCount s) alias /\
  onlineNodes recovered = onlineNodes struck.
Proof.
  intros Hoff Hv Hc struck recovered.
  assert (Hstruck : count_of (offlineCount struck) alias
                    = count_of (offlineCount s) alias + 1).
  { subst struck. simpl. rewrite Hoff, on_node_offline_count by done.
    apply GoIntFacts.incr_no_overflow. unfold GoInt.min_int, GoInt.max_int in *. lia. }
  split; [done|]. subst recovered. simpl. split.
  - rewrite on_batch_success_count, Hstruck. rewrite decide_True by lia.
    rewrite GoIntFacts.decr_positive; unfold GoInt.max_int in *; lia.
  - apply on_batch_success_online.
Qed.

(** A witness of X6: alias 7 with one strike, a maximum of 5. *)
Lemma X6_witness :
  let s := Scenario.service_of 3 5 ∅ ∅ {[ 7 ]} {[ 7 := 1 ]} in
  Has ErrNodeOffline Scenario.offline_error = true /\
  2 <> 0 /\
  0 <= count_of (offlineCount s) 7 < GoInt.max_int /\
  count_of (offlineCount
              (reconcile 7 4 None (reconcile 7 2 (Some Scenario.offline_error) s))) 7
    = count_of (offlineCount s) 7.
Proof.
  intros s.
  assert (H1 : Has ErrNodeOffline Scenario.offline_error = true) by reflexivity.
  assert (H2 : 2 <> 0) by lia.
  assert (H3 : 0 <= count_of (offlineCount s) 7 < GoInt.max_int)
    by (vm_compute; split; [discriminate | reflexivity]).
  destruct (X6_success_undoes_one_strike s 7 2 4 Scenario.offline_error H1 H2 H3)
    as (_ & Hback & _).
  split; [exact H1|]. split; [exact H2|]. split; [exact H3 | exact Hback].
Defined.

(** The outcomes of a sequence of batches for one alias, applied in order. *)
Lemma foldl_reconcile_cons (alias v : Z) (err : goerror)
    (outcomes : list (Z * goerror)) (s : Service) :
  foldl (fun s '(v, err) => reconcile alias v err s) s ((v, err) :: outcomes)
  = foldl (fun s '(v, err) => reconcile alias v err s) (reconcile alias v err s) outcomes.
Proof. reflexivity. Qed.

(** X7.  Over any sequence of batch outcomes for an alias, of whatever
    kind, the strike counter stays between zero and its first value plus the
    number of batches, as long as that sum is an [int]. *)
Theorem X7_strike_counter_bounds
    (alias : Z) (outcomes : list (Z * goerror)) (s : Service) :
  0 <= count_of (offlineCount s) alias ->
  count_of (offlineCount s) alias + Z.of_nat (length outcomes) <= GoInt.max_int ->
  let s' := foldl (fun s '(v, err) => reconcile alias v err s) s outcomes in
  0 <= count_of (offlineCount s') alias
    <= count_of (offlineCount s) alias + Z.of_nat (length outcomes).
Proof.
  revert s. induction outcomes as [|[v err] outcomes IH]; intros s Hlow Hhigh; [simpl; lia|].
  rewrite foldl_reconcile_cons.
  rewrite length_cons, Nat2Z.inj_succ in *.
  destruct (reconcile_count_step alias v err s) as [Hpos Hstep]; [lia|].
  specialize (IH (reconcile alias v err s)). cbv zeta in IH.
  destruct IH as [IHlow IHhigh]; [lia | lia |].
  split; [exact IHlow | lia].
Qed.

(** A witness of X7: three strikes and a success on a fresh counter. *)
Lemma X7_witness :
  let s := Scenario.service_of 3 0 ∅ ∅ {[ 7 ]} ∅ in
  let outcomes := [(1, Some Scenario.offline_error); (1, Some Scenario.offline_error);
                   (2, None); (1, Some Scenario.offline_error)] in
  0 <= count_of (offlineCount s) 7 /\
  count_of (offlineCount s) 7 + Z.of_nat (length outcomes) <= GoInt.max_int /\
  0 <= count_of (offlineCount
                   (foldl (fun s '(v, err) => reconcile 7 v err s) s outcomes)) 7
    <= count_of (offlineCount s) 7 + Z.of_nat (length outcomes).
Proof.
  intros s outcomes.
  assert (H1 : 0 <= count_of (offlineCount s) 7) by (vm_compute; discriminate).
  assert (H2 : count_of (offlineCount s) 7 + Z.of_nat (length outcomes) <= GoInt.max_int)
    by (vm_compute; discriminate).
  split; [exact H1|]. split; [exact H2|].
  exact (X7_strike_counter_bounds 7 outcomes s H1 H2).
Defined.

End HealthMoreProofs.

(** ** More on [VerifyBatches] and [Verify] *)

Module VerifyMoreProofs.

Import SegmentVerify ResolverProofs HealthProofs BudgetProofs BatchesProofs VerifyProofs
       ResolverMoreProofs.

Section VerifyMore.

Context {Ext : Type} (deps : @Collaborators Ext).

(** What the loop of [VerifyBatches] does to the health maps: the online
    set only loses aliases, and an alias that no batch names keeps its
    counter and its place. *)
Lemma VerifyBatches_loop_health (batches : list Batch) (w : @World Ext) :
  onlineNodes (svc (snd (VerifyBatches_loop deps batches w))) ⊆ onlineNodes (svc w) /\
  forall alias : Z,
    (forall batch, batch ∈ batches -> Batch_Alias batch <> alias) ->
    count_of (offlineCount (svc (snd (VerifyBatches_loop deps batches w)))) alias
      = count_of (offlineCount (svc w)) alias /\
    (alias ∈ onlineNodes (svc (snd (VerifyBatches_loop deps batches w)))
       <-> alias ∈ onlineNodes (svc w)).
Proof.
  revert w. induction batches as [|batch rest IH]; intros w; [done|].
  rewrite VerifyBatches_loop_cons.
  destruct (GetNodeInfo_frame deps (Batch_Alias batch) w) as (_ & _ & _ & _ & Hon & Hcount).
  destruct (resolution_error deps batch w) as [e|]; simpl.
  - rewrite Hon, Hcount. done.
  - set (info := fst (fst (GetNodeInfo deps (Batch_Alias batch) w))).
    set (w1 := snd (GetNodeInfo deps (Batch_Alias batch) w)) in *.
    destruct (IH (after_task deps batch info w1)) as [IHsub IHother].
    pose proof (after_task_svc deps batch info w1) as Hsvc.
    split.
    + etrans; [exact IHsub|]. rewrite Hsvc, <- Hon.
      apply reconcile_online_subset.
    + intros alias Hnone.
      destruct (IHother alias) as [IHc IHo]; [intros b Hb; apply Hnone; set_solver|].
      rewrite IHc, IHo, Hsvc.
      destruct (reconcile_other (Batch_Alias batch) alias
                  (fst (fst (fst (verifier_Verify deps (Batch_Alias batch) (NodeURL_of info)
                     (Version info) (Items batch)
                     (bool_decide (Batch_Alias batch ∈ priorityNodes (svc w1)))
                     (heap w1) (ext w1)))))
                  (snd (fst (fst (verifier_Verify deps (Batch_Alias batch) (NodeURL_of info)
                     (Version info) (Items batch)
                     (bool_decide (Batch_Alias batch ∈ priorityNodes (svc w1)))
                     (heap w1) (ext w1)))))
                  (svc w1)) as [Hc Ho]; [apply Hnone; set_solver|].
      rewrite Hc, Ho, Hon, Hcount. done.
Qed.

(** X5.  [VerifyBatches] never puts an alias into the online set, and an
    alias that none of the batches names keeps its strike counter and stays
    online or offline as it was, whatever the verifier and the resolver
    answer and whether or not the call ends in an error. *)
Theorem X5_VerifyBatches_touches_only_its_aliases
    (batches : list Batch) (w : @World Ext) :
  let w' := snd (VerifyBatches deps batches w) in
  onlineNodes (svc w') ⊆ onlineNodes (svc w) /\
  forall alias : Z,
    (forall batch, batch ∈ batches -> Batch_Alias batch <> alias) ->
    count_of (offlineCount (svc w')) alias = count_of (offlineCount (svc w)) alias /\
    (alias ∈ onlineNodes (svc w') <-> alias ∈ onlineNodes (svc w)).
Proof.
  intros w'. subst w'. rewrite VerifyBatches_unfold.
  exact (VerifyBatches_loop_health batches (at_entry batches w)).
Qed.

(** An error of a pass is of the package's class. *)
Lemma Verify_pass_error_class (segments : list nat) (w : @World Ext) (e : error) :
  fst (Verify_pass deps segments w) = Some e -> Has Error e = true.
Proof.
  rewrite Verify_pass_run.
  destruct (snd (fst (call_CreateBatches deps segments w))) as [e'|]; simpl.
  - intros [= <-]. apply Has_wrap_in.
  - apply Wrap_in_class.
Qed.

(** X2.  Every error that [VerifyBatches] or [Verify] returns is of the
    package's class [Error], whichever collaborator the error comes from. *)
Theorem X2_errors_are_of_class_Error
    (batches : list Batch) (segments : list nat) (w : @World Ext) (e : error) :
  (fst (VerifyBatches deps batches w) = Some e -> Has Error e = true) /\
  (fst (Verify deps segments w) = Some e -> Has Error e = true).
Proof.
  split.
  - rewrite VerifyBatches_unfold. intros Herr.
    apply VerifyBatches_loop_error in Herr as (pre & batch & post & e' & _ & _ & _ & ->).
    apply Has_wrap_in.
  - rewrite Verify_unfold.
    destruct (fst (Verify_pass deps segments (after_init segments w))) as [e'|] eqn:Hpass.
    + simpl. intros [= <-]. by apply (Verify_pass_error_class _ _ _ Hpass).
    + rewrite Verify_retry_run. cbv zeta. destruct (decide _); [|done].
      apply Verify_pass_error_class.
Qed.

(** A pass never puts an alias into the online set. *)
Lemma Verify_pass_online (segments : list nat) (w : @World Ext) :
  onlineNodes (svc (snd (Verify_pass deps segments w))) ⊆ onlineNodes (svc w).
Proof.
  rewrite Verify_pass_run.
  destruct (call_CreateBatches_frame deps segments w) as [_ Hs].
  destruct (snd (fst (call_CreateBatches deps segments w))) as [e|]; simpl.
  - by rewrite Hs.
  - rewrite VerifyBatches_unfold.
    destruct (VerifyBatches_loop_health (fst (fst (call_CreateBatches deps segments w)))
                (at_entry (fst (fst (call_CreateBatches deps segments w)))
                          (snd (call_CreateBatches deps segments w)))) as [Hsub _].
    simpl in Hsub. by rewrite Hs in Hsub.
Qed.

(** X11.  [Verify] leaves the configuration and the priority set as they
    are and never puts an alias into the online set: a node that is offline
    before a call is offline after it. *)
Theorem X11_Verify_never_brings_a_node_online (segments : list nat) (w : @World Ext) :
  let w' := snd (Verify deps segments w) in
  config (svc w') = config (svc w) /\
  priorityNodes (svc w') = priorityNodes (svc w) /\
  onlineNodes (svc w') ⊆ onlineNodes (svc w).
Proof.
  intros w'. subst w'. rewrite Verify_unfold.
  destruct (after_first_pass_config deps segments w) as [Hc3 Hp3].
  assert (Ho3 : onlineNodes (svc (after_first_pass deps segments w)) ⊆ onlineNodes (svc w)).
  { unfold after_first_pass. etrans; [apply Verify_pass_online|].
    by destruct (after_init_frame segments w) as [_ ->]. }
  destruct (fst (Verify_pass deps segments (after_init segments w))) as [e|]; simpl; [done|].
  rewrite Verify_retry_run. cbv zeta. fold (retried deps segments w).
  destruct (decide _); simpl; [|done].
  fold (before_second_pass deps segments w).
  destruct (before_second_pass_frame deps segments w) as [_ Hs4].
  destruct (Verify_pass_frame deps (retried deps segments w)
              (before_second_pass deps segments w)) as [-> ->].
  rewrite Hs4. split_and!; [done | done |].
  etrans; [apply Verify_pass_online|]. by rewrite Hs4.
Qed.

(** X9.  On an empty list of segments [Verify] is one pass: it returns
    what the pass over the empty list returns and ends in the state that pass
    ends in, without a retry. *)
Theorem X9_Verify_of_no_segments_is_one_pass (w : @World Ext) :
  Verify deps [] w = Verify_pass deps [] w.
Proof.
  assert (Hinit : after_init [] w = w) by reflexivity.
  rewrite Verify_unfold. unfold after_first_pass. rewrite Hinit.
  destruct (Verify_pass deps [] w) as [[e|] w3] eqn:Hpass; cbn [fst snd]; [done|].
  rewrite Verify_retry_run. cbv zeta. unfold retry_segments. cbn [filter list_filter].
  rewrite decide_False; [done | tauto].
Qed.

End VerifyMore.

End VerifyMoreProofs.

(** ** More on the loops of [Verify] *)

Module LoopsMoreProofs.

Import SegmentVerify BudgetProofs VerifyProofs.

(** X8.  The swap loop of [Verify] leaves a piece list in reverse order:
    the pieces are the same, as many as before, and running the loop twice
    gives the list back. *)
Theorem X8_swap_loop_reverses (xs : list AliasPiece) :
  reverse_in_place xs = reverse xs /\
  length (reverse_in_place xs) = length xs /\
  reverse_in_place xs ≡ₚ xs /\
  reverse_in_place (reverse_in_place xs) = xs /\
  forall i : nat, (i < length xs)%nat ->
    reverse_in_place xs !! i = xs !! (length xs - S i)%nat.
Proof.
  rewrite !reverse_in_place_reverse. split_and!.
  - done.
  - apply length_reverse.
  - apply reverse_Permutation.
  - apply reverse_involutive.
  - intros i Hi. by apply reverse_lookup.
Qed.

Section Loops.

Context {Ext : Type}.

(** X10.  The first loop of [Verify] writes [Status.Retry] of the listed
    segments only: the service, the outside world and the call trace are as
    before, no segment loses or gains a piece, a segment that is not listed
    is untouched, and running the loop a second time changes nothing. *)
Theorem X10_init_retry_writes_budgets_only (segments : list nat) (w : @World Ext) :
  let w' := snd (init_retry segments w) in
  svc w' = svc w /\ ext w' = ext w /\ trace w' = trace w /\
  (forall q : nat,
     AliasPieces (heap w' q) = AliasPieces (heap w q) /\
     StreamID (heap w' q) = StreamID (heap w q)) /\
  (forall q : nat, q ∉ segments -> heap w' q = heap w q) /\
  (forall q : nat, heap (snd (init_retry segments w')) q = heap w' q).
Proof.
  intros w'. subst w'.
  destruct (init_retry_spec segments w) as (h' & Hrun & Hh').
  destruct (init_retry_spec segments (snd (init_retry segments w))) as (h'' & Hrun' & Hh'').
  rewrite Hrun' . rewrite Hrun in *. simpl in *.
  split_and!; try done.
  - intros q. rewrite Hh'. by case_decide.
  - intros q Hq. rewrite Hh'. by rewrite decide_False.
  - intros q. rewrite Hh'', !Hh'. case_decide; [|done].
    unfold retryCount_of. by destruct (heap w q).
Qed.

End Loops.

End LoopsMoreProofs.

(** ** More on the ranged loop providers *)

Module RangedLoopMoreProofs.

Import RangedLoop RangedLoopProofs.

Section IterationMore.

Context {Row St : Type} (fn : list Row -> St -> goerror * St).

(** The loop never hands over an empty batch, whatever the batch size. *)
Lemma iterate_rows_nonempty (size : Z) (ctx : RunContext) (rows : list Row) :
  forall (tick : nat) (segments : list Row) (st : St),
    Forall (fun batch => batch <> [])
           (delivered (snd (iterate_rows fn size ctx rows tick segments st))).
Proof.
  induction rows as [|row rest IH]; intros tick segments st.
  - cbn [iterate_rows].
    destruct (Z.ltb_spec 0 (Z.of_nat (length segments))) as [Hpos|Hzero].
    + destruct (fn segments st) as [err st']. simpl.
      constructor; [|constructor]. intros ->. simpl in Hpos. lia.
    + constructor.
  - cbn [iterate_rows]. destruct (ctx tick) as [e|]; [constructor|].
    destruct (size <=? Z.of_nat (length (segments ++ [row]))).
    + destruct (fn (segments ++ [row]) st) as [[e|] st'].
      * simpl. constructor; [|constructor]. by destruct segments.
      * specialize (IH (S tick) [] st').
        destruct (iterate_rows fn size ctx rest (S tick) [] st') as [[r st''] evs].
        simpl in *. constructor; [|done]. by destruct segments.
    + specialize (IH (S tick) (segments ++ [row]) st).
      by destruct (iterate_rows fn size ctx rest (S tick) (segments ++ [row]) st)
        as [[r st'] evs].
Qed.

(** X12.  With a batch size that is not negative, [Iterate] never calls the
    callback with an empty batch, for any context and callback; in
    particular it does not call it at all when the scan yields no row, and
    returns nil.  (With a negative batch size [make] panics before the
    loop.) *)
Theorem X12_Iterate_hands_over_no_empty_batch
    (provider : @MetabaseSegmentProvider Row) (ctx : RunContext) (st : St) :
  0 <= batchSize provider ->
  Forall (fun batch => batch <> []) (delivered (snd (Iterate fn provider ctx st))) /\
  (scan_rows provider = [] ->
     Iterate fn provider ctx st = (None, st, [])).
Proof.
  intros _.
  unfold Iterate, IterateLoopSegments. fold (scan_rows provider). split.
  - apply iterate_rows_nonempty.
  - intros ->. reflexivity.
Qed.

(** Full batches and a last one hold between [size * (k - 1) + 1] and
    [size * k] rows, [k] being their number. *)
Lemma chunked_count (size : Z) (batches : list (list Row)) :
  1 <= size ->
  chunked size batches ->
  batches <> [] ->
  size * (Z.of_nat (length batches) - 1) < Z.of_nat (length (concat batches))
    <= size * Z.of_nat (length batches).
Proof.
  intros Hsize Hch. induction Hch as [|b Hb|b rest Hb Hrest IH]; intros Hne.
  - done.
  - simpl. rewrite app_nil_r. lia.
  - cbn [concat length]. rewrite length_app, !Nat2Z.inj_succ, Nat2Z.inj_add.
    destruct rest as [|b' rest'].
    + simpl. lia.
    + specialize (IH ltac:(done)). nia.
Qed.

(** X13.  With a batch size of at least 1, a run of [Iterate] that returns
    no error has called the callback as many times as the number of rows
    divided by the batch size, rounded up. *)
Theorem X13_Iterate_number_of_batches
    (provider : @MetabaseSegmentProvider Row) (ctx : RunContext) (st : St) :
  1 <= batchSize provider ->
  fst (fst (Iterate fn provider ctx st)) = None ->
  Z.of_nat (length (delivered (snd (Iterate fn provider ctx st))))
    = (Z.of_nat (length (scan_rows provider)) + batchSize provider - 1)
        / batchSize provider.
Proof.
  intros Hsize Herr. revert Herr.
  unfold Iterate, IterateLoopSegments. fold (scan_rows provider). intros Herr.
  destruct (iterate_rows_batches fn (batchSize provider) ctx (scan_rows provider)
              Hsize 0%nat [] st) as (Hch & Hconcat); [simpl; lia|].
  specialize (Hconcat Herr). simpl in Hconcat.
  set (batches := delivered _) in *. clearbody batches.
  rewrite <- Hconcat.
  destruct (decide (batches = [])) as [->|Hne].
  - simpl. symmetry. apply Z.div_small. lia.
  - pose proof (chunked_count _ _ Hsize Hch Hne) as Hcount.
    rewrite Z.mul_sub_distr_l, Z.mul_1_r in Hcount.
    apply (Z.div_unique_pos _ _ _
             (Z.of_nat (length (concat batches)) + batchSize provider - 1
              - batchSize provider * Z.of_nat (length batches))); lia.
Qed.

(** Up to a check of the context that reports a cancellation, and with a
    callback that returns no error, the loop hands over full batches and
    keeps fewer than [size] rows back, which it then drops. *)
Lemma iterate_rows_cancelled (size : Z) (ctx : RunContext) (e : error) (rows : list Row) :
  1 <= size ->
  (forall batch st, fst (fn batch st) = None) ->
  forall (k tick : nat) (segments : list Row) (st : St),
    Z.of_nat (length segments) < size ->
    (k < length rows)%nat ->
    (forall j : nat, (j < k)%nat -> ctx (tick + j)%nat = None) ->
    ctx (tick + k)%nat = Some e ->
    fst (fst (iterate_rows fn size ctx rows tick segments st)) = Some e /\
    Forall (fun batch => Z.of_nat (length batch) = size)
           (delivered (snd (iterate_rows fn size ctx rows tick segments st))) /\
    exists pending : list Row,
      segments ++ take k rows
        = concat (delivered (snd (iterate_rows fn size ctx rows tick segments st)))
          ++ pending /\
      Z.of_nat (length pending) < size.
Proof.
  intros Hsize Hfn. induction rows as [|row rest IH];
    intros k tick segments st Hlen Hk Hbefore Hat; [simpl in Hk; lia|].
  cbn [iterate_rows]. destruct k as [|k].
  - rewrite Nat.add_0_r in Hat. rewrite Hat. simpl.
    split_and!; [done | constructor |]. exists segments. by rewrite app_nil_r.
  - assert (Hnow : ctx tick = None).
    { specialize (Hbefore 0%nat ltac:(lia)). by rewrite Nat.add_0_r in Hbefore. }
    rewrite Hnow.
    assert (Hbefore' : forall j : nat, (j < k)%nat -> ctx (S tick + j)%nat = None).
    { intros j Hj. specialize (Hbefore (S j) ltac:(lia)).
      by replace (tick + S j)%nat with (S tick + j)%nat in Hbefore by lia. }
    assert (Hat' : ctx (S tick + k)%nat = Some e)
      by (by replace (S tick + k)%nat with (tick + S k)%nat by lia).
    simpl in Hk.
    destruct (Z.leb_spec size (Z.of_nat (length (segments ++ [row])))) as [Hfull|Hpart].
    + assert (Hexact : Z.of_nat (length (segments ++ [row])) = size)
        by (rewrite length_app in *; simpl in *; lia).
      specialize (Hfn (segments ++ [row]) st).
      destruct (fn (segments ++ [row]) st) as [err st']. simpl in Hfn. subst err.
      specialize (IH k (S tick) [] st' ltac:(simpl; lia) ltac:(lia) Hbefore' Hat').
      destruct (iterate_rows fn size ctx rest (S tick) [] st') as [[r st''] evs].
      simpl in *. destruct IH as (Hr & Hall & pending & Heq & Hpending).
      split_and!; [done | by constructor |].
      exists pending. split; [|done].
      rewrite <- !app_assoc, <- Heq. done.
    + specialize (IH k (S tick) (segments ++ [row]) st Hpart ltac:(lia) Hbefore' Hat').
      destruct (iterate_rows fn size ctx rest (S tick) (segments ++ [row]) st)
        as [[r st'] evs].
      simpl in *. destruct IH as (Hr & Hall & pending & Heq & Hpending).
      split_and!; [done | done |].
      exists pending. split; [|done]. rewrite <- Heq, <- app_assoc. done.
Qed.

(** X14.  When the context reports a cancellation at the check before row
    [k], no check before it did and the callback returns no error, [Iterate]
    returns the context's error, every batch it has handed over is a full
    one, and of the [k] rows read before the check all but the last fewer
    than [batchSize] have been handed over: the batch under construction is
    dropped, not delivered. *)
Theorem X14_Iterate_cancelled_drops_the_pending_batch
    (provider : @MetabaseSegmentProvider Row) (ctx : RunContext) (st : St)
    (k : nat) (e : error) :
  1 <= batchSize provider ->
  (forall batch st, fst (fn batch st) = None) ->
  (k < length (scan_rows provider))%nat ->
  (forall j : nat, (j < k)%nat -> ctx j = None) ->
  ctx k = Some e ->
  fst (fst (Iterate fn provider ctx st)) = Some e /\
  Forall (fun batch => Z.of_nat (length batch) = batchSize provider)
         (delivered (snd (Iterate fn provider ctx st))) /\
  exists pending : list Row,
    take k (scan_rows provider)
      = concat (delivered (snd (Iterate fn provider ctx st))) ++ pending /\
    Z.of_nat (length pending) < batchSize provider.
Proof.
  intros Hsize Hfn Hk Hbefore Hat.
  unfold Iterate, IterateLoopSegments. fold (scan_rows provider).
  apply (iterate_rows_cancelled (batchSize provider) ctx e (scan_rows provider)
           Hsize Hfn k 0%nat [] st); [simpl; lia | done | done | done].
Qed.

(** With a batch size of at most 1 every row is flushed as soon as it is
    appended. *)
Lemma iterate_rows_singletons (size : Z) (ctx : RunContext) (rows : list Row) :
  size <= 1 ->
  forall (tick : nat) (st : St),
    delivered (snd (iterate_rows fn size ctx rows tick [] st))
      `prefix_of` map (fun row => [row]) rows /\
    (fst (fst (iterate_rows fn size ctx rows tick [] st)) = None ->
     delivered (snd (iterate_rows fn size ctx rows tick [] st))
       = map (fun row => [row]) rows).
Proof.
  intros Hsize. induction rows as [|row rest IH]; intros tick st; [done|].
  cbn [iterate_rows]. destruct (ctx tick) as [e|].
  { simpl. split; [apply prefix_nil | done]. }
  cbn [app length].
  destruct (Z.leb_spec size (Z.of_nat 1)) as [_|Hgt]; [|simpl in Hgt; lia].
  destruct (fn [row] st) as [[e|] st'].
  - simpl. split; [|done]. apply prefix_cons, prefix_nil.
  - specialize (IH (S tick) st').
    destruct (iterate_rows fn size ctx rest (S tick) [] st') as [[r st''] evs].
    simpl in *. destruct IH as [Hprefix Hall].
    split; [by apply prefix_cons|]. intros Hr. by rewrite (Hall Hr).
Qed.

(** X15.  With a batch size of 0 or 1 [Iterate] hands every row over as a
    batch of its own: the batches are the first rows of the scan, one each,
    and all rows when it returns no error. *)
Theorem X15_Iterate_batch_size_zero_or_one
    (provider : @MetabaseSegmentProvider Row) (ctx : RunContext) (st : St) :
  0 <= batchSize provider <= 1 ->
  delivered (snd (Iterate fn provider ctx st))
    `prefix_of` map (fun row => [row]) (scan_rows provider) /\
  (fst (fst (Iterate fn provider ctx st)) = None ->
   delivered (snd (Iterate fn provider ctx st))
     = map (fun row => [row]) (scan_rows provider)).
Proof.
  intros Hsize. unfold Iterate, IterateLoopSegments. fold (scan_rows provider).
  apply iterate_rows_singletons. lia.
Qed.

End IterationMore.

(** A witness of X12: three rows with a batch size of 0, and an empty
    catalog with a batch size of 2. *)
Lemma X12_witness :
  0 <= batchSize Scenario.three_rows_size_0 /\
  Forall (fun batch => batch <> [])
         (delivered (snd (Iterate Scenario.collect Scenario.three_rows_size_0
                                  Scenario.background []))) /\
  Iterate Scenario.collect Scenario.no_rows Scenario.background [] = (None, [], []).
Proof.
  assert (Hsize : 0 <= batchSize Scenario.three_rows_size_0) by (vm_compute; discriminate).
  assert (Hsize' : 0 <= batchSize Scenario.no_rows) by (vm_compute; discriminate).
  split; [exact Hsize|]. split.
  - exact (proj1 (X12_Iterate_hands_over_no_empty_batch Scenario.collect
                    Scenario.three_rows_size_0 Scenario.background [] Hsize)).
  - exact (proj2 (X12_Iterate_hands_over_no_empty_batch Scenario.collect
                    Scenario.no_rows Scenario.background [] Hsize') eq_refl).
Defined.

(** A witness of X13: five rows in batches of two are three batches. *)
Lemma X13_witness :
  1 <= batchSize Scenario.five_rows /\
  fst (fst (Iterate Scenario.collect Scenario.five_rows Scenario.background [])) = None /\
  Z.of_nat (length (delivered
     (snd (Iterate Scenario.collect Scenario.five_rows Scenario.background []))))
  = (5 + 2 - 1) / 2.
Proof.
  assert (Hsize : 1 <= batchSize Scenario.five_rows) by (vm_compute; discriminate).
  assert (Herr : fst (fst (Iterate Scenario.collect Scenario.five_rows
                                   Scenario.background [])) = None)
    by (vm_compute; reflexivity).
  split; [exact Hsize|]. split; [exact Herr|].
  exact (X13_Iterate_number_of_batches Scenario.collect Scenario.five_rows
           Scenario.background [] Hsize Herr).
Defined.

(** A witness of X14: five rows in batches of two, cancelled at the check
    before the fourth row; one batch has been handed over and the third row
    is dropped. *)
Lemma X14_witness :
  1 <= batchSize Scenario.five_rows /\
  (3 < length (scan_rows Scenario.five_rows))%nat /\
  Scenario.cancelled_at_3 3%nat = Some Scenario.cancelled /\
  fst (fst (Iterate Scenario.collect Scenario.five_rows Scenario.cancelled_at_3 []))
    = Some Scenario.cancelled /\
  delivered (snd (Iterate Scenario.collect Scenario.five_rows Scenario.cancelled_at_3 []))
    = [[1; 2]]%nat.
Proof.
  assert (Hsize : 1 <= batchSize Scenario.five_rows) by (vm_compute; discriminate).
  assert (Hk : (3 < length (scan_rows Scenario.five_rows))%nat) by (vm_compute; lia).
  assert (Hbefore : forall j : nat, (j < 3)%nat -> Scenario.cancelled_at_3 j = None).
  { intros j Hj. unfold Scenario.cancelled_at_3.
    destruct (Nat.ltb_spec j 3); [done | lia]. }
  assert (Hat : Scenario.cancelled_at_3 3%nat = Some Scenario.cancelled) by reflexivity.
  destruct (X14_Iterate_cancelled_drops_the_pending_batch Scenario.collect
              Scenario.five_rows Scenario.cancelled_at_3 [] 3%nat Scenario.cancelled
              Hsize (fun _ _ => eq_refl) Hk Hbefore Hat) as (Herr & _).
  split; [exact Hsize|]. split; [exact Hk|]. split; [exact Hat|]. split; [exact Herr|].
  vm_compute. reflexivity.
Defined.

(** A witness of X15: a batch size of 0. *)
Lemma X15_witness :
  0 <= batchSize Scenario.three_rows_size_0 <= 1 /\
  delivered (snd (Iterate Scenario.collect Scenario.three_rows_size_0
                          Scenario.background []))
    = [[1]; [2]; [3]]%nat.
Proof.
  assert (Hsize : 0 <= batchSize Scenario.three_rows_size_0 <= 1)
    by (vm_compute; split; discriminate).
  destruct (X15_Iterate_batch_size_zero_or_one Scenario.collect
              Scenario.three_rows_size_0 Scenario.background [] Hsize) as [_ Hall].
  split; [exact Hsize|]. rewrite Hall; [reflexivity | vm_compute; reflexivity].
Defined.

(** X16.  [CreateRanges] does not use the batch size the splitter was made
    with by [NewMetabaseRangeSplitter]: every provider it returns has the
    batch size passed to [CreateRanges] and the splitter's database, and two
    splitters over the same database give the same result. *)
Theorem X16_CreateRanges_uses_its_own_batch_size
    {Row : Type} (d : @DB Row) (made_with other nRanges size now : Z) :
  Forall (fun p => batchSize p = size /\ db p = d)
         (fst (CreateRanges (NewMetabaseRangeSplitter d made_with) nRanges size now)) /\
  CreateRanges (NewMetabaseRangeSplitter d made_with) nRanges size now
    = CreateRanges (NewMetabaseRangeSplitter d other) nRanges size now.
Proof.
  rewrite !CreateRanges_run. split; [|done].
  destruct (GoInt.uint32 nRanges <=? 0); simpl; [constructor|].
  apply Forall_forall. intros p Hp.
  apply list_elem_of_fmap in Hp as (r & -> & _). done.
Qed.

End RangedLoopMoreProofs.

(** ** The database calls of the migration tool *)

Module MigrationProofs.

Import MigrationMetabase EncodersProofs.

Lemma errors_Is_chain_refl (e : dberror) : errors_Is_chain e e = true.
Proof.
  destruct e; cbn [errors_Is_chain];
    (destruct (decide _) as [_|Hne]; [done | by destruct Hne]).
Qed.

(** What [wrapf] returns is nil exactly for a nil error, and otherwise an
    error in whose chain [errors.Is] finds the error wrapped. *)
Lemma wrapf_spec (message : string) (err : option dberror) :
  (wrapf message err = None <-> err = None) /\
  forall e : dberror, err = Some e -> errors_Is (wrapf message err) e = true.
Proof.
  split.
  - destruct err; simpl; split; congruence.
  - intros e ->. cbn [wrapf errors_Is errors_Is_chain].
    destruct (decide _) as [_|_]; [done|]. apply errors_Is_chain_refl.
Qed.

Lemma errors_Is_wrapf (message : string) (e : dberror) :
  errors_Is (wrapf message (Some e)) e = true.
Proof. by apply wrapf_spec. Qed.

Lemma wrapf_nil (message : string) (err : option dberror) :
  wrapf message err = None <-> err = None.
Proof. apply wrapf_spec. Qed.

(** [NodeAliases.Encode] converts each alias. *)
Lemma NodeAliases_Encode_map (aliases : list Z) :
  NodeAliases_Encode aliases = map GoInt.int32 aliases.
Proof.
  unfold NodeAliases_Encode.
  pose proof (Encode_loop_spec aliases []) as Hloop. by simpl in Hloop.
Qed.

Lemma map_int32_id (aliases : list Z) :
  Forall (fun v => GoInt.min_int32 <= v <= GoInt.max_int32) aliases ->
  map GoInt.int32 aliases = aliases.
Proof.
  induction 1 as [|v rest Hv Hrest IH]; [done|].
  simpl. by rewrite IH, GoIntFacts.int32_id.
Qed.

Section Migration.

Context {Db : Type} (driver : @Driver Db).

(** X20.  [Migrate] runs its four statements with [Exec], in the order
    buckets, types, objects, segments, and stops at the first one that fails:
    the calls it makes are a beginning of that sequence, every call but the
    last returned no error, and the result is nil exactly when all four ran
    and the last returned no error; an error of the last call is in the chain
    of the error returned. *)
Theorem X20_Migrate_stops_at_first_failure (ss : @Session Db) :
  exists (calls : list DriverCall) (final : DriverCall),
    snd (snd (Migrate driver ss)) = snd ss ++ calls /\
    last calls = Some final /\
    map call_statement calls `prefix_of` migration_statements /\
    Forall (fun c => call_kind c = ByExec) calls /\
    (forall (i : nat) (c : DriverCall),
       calls !! i = Some c -> (S i < length calls)%nat -> call_result c = None) /\
    (fst (Migrate driver ss) = None <->
       map call_statement calls = migration_statements /\ call_result final = None) /\
    (forall e : dberror,
       call_result final = Some e -> errors_Is (fst (Migrate driver ss)) e = true).
Proof.
  destruct ss as [d calls0]. unfold Migrate, conn_Exec, migration_statements. simpl.
  destruct (driver_Exec driver CreateTableBuckets [] d) as [[n1 [e1|]] d1]; simpl.
  { eexists [_], _. split_and!; try done.
    - by exists [CreateTypes; CreateTableObjects; CreateTableSegments].
    - by repeat constructor.
    - intros [|i] c Hi Hlt; simpl in *; [lia | done].
    - split; [done | by intros [? ?]].
    - intros e [= <-]. exact (errors_Is_wrapf _ _). }
  destruct (driver_Exec driver CreateTypes [] d1) as [[n2 [e2|]] d2]; simpl.
  { eexists [_; _], _. rewrite <- app_assoc. split_and!; try done.
    - by exists [CreateTableObjects; CreateTableSegments].
    - by repeat constructor.
    - intros [|[|i]] c Hi Hlt; simpl in *; [by injection Hi as <- | lia | done].
    - split; [done | by intros [? ?]].
    - intros e [= <-]. exact (errors_Is_wrapf _ _). }
  destruct (driver_Exec driver CreateTableObjects [] d2) as [[n3 [e3|]] d3]; simpl.
  { eexists [_; _; _], _. rewrite <- !app_assoc. split_and!; try done.
    - by exists [CreateTableSegments].
    - by repeat constructor.
    - intros [|[|[|i]]] c Hi Hlt; simpl in *;
        [by injection Hi as <- | by injection Hi as <- | lia | done].
    - split; [done | by intros [? ?]].
    - intros e [= <-]. exact (errors_Is_wrapf _ _). }
  destruct (driver_Exec driver CreateTableSegments [] d3) as [[n4 err4] d4]; simpl.
  eexists [_; _; _; _], _. rewrite <- !app_assoc. split_and!; try done.
  - by repeat constructor.
  - intros [|[|[|[|i]]]] c Hi Hlt; simpl in *;
      [by injection Hi as <- | by injection Hi as <- | by injection Hi as <- | lia | done].
  - simpl. destruct err4; simpl; split; try done. by intros [_ ?].
  - simpl. intros e ->. exact (errors_Is_wrapf _ _).
Qed.

(** X21.  [BeginSegment] only reads: it makes one or two [QueryRow] calls
    and no [Exec].  When the lookup of the partial object fails it returns an
    error after that one call.  Otherwise it looks the segment up and returns
    an error exactly when that lookup returns an error that is not
    [pgx.ErrNoRows]; a lookup that finds a row returns no error, and then
    [BeginSegment] returns nil. *)
Theorem X21_BeginSegment_error_cases (opts : SegmentOpts) (ss : @Session Db) :
  let object_lookup :=
    driver_Scan driver SelectPartialObject (partial_object_args opts) (fst ss) in
  let segment_lookup :=
    driver_Scan driver SelectSegment
      [ArgUUID (opts_StreamID opts);
       ArgUint64 (SegmentPosition_Encode (opts_SegmentPosition opts))]
      (snd object_lookup) in
  exists calls : list DriverCall,
    snd (snd (BeginSegment driver opts ss)) = snd ss ++ calls /\
    Forall (fun c => call_kind c = ByQueryRow) calls /\
    (forall e : dberror,
       fst object_lookup = Some e ->
       length calls = 1%nat /\
       errors_Is (fst (BeginSegment driver opts ss)) e = true) /\
    (fst object_lookup = None ->
       length calls = 2%nat /\
       (fst (BeginSegment driver opts ss) = None <->
          fst segment_lookup = None \/ errors_Is (fst segment_lookup) ErrNoRows = true)).
Proof.
  intros object_lookup segment_lookup. subst object_lookup segment_lookup.
  destruct ss as [d calls0]. unfold BeginSegment, conn_Scan. simpl.
  destruct (driver_Scan driver SelectPartialObject (partial_object_args opts) d)
    as [[e1|] d1]; simpl.
  - eexists [_]. split_and!; try done.
    + by repeat constructor.
    + intros e [= <-]. split; [done | exact (errors_Is_wrapf _ _)].
  - destruct (driver_Scan driver SelectSegment _ d1) as [err2 d2]; simpl.
    destruct err2 as [e2|]; simpl.
    + destruct (errors_Is_chain e2 ErrNoRows) eqn:Hrows; simpl;
        eexists [_; _]; rewrite <- app_assoc; (split_and!; [done | by repeat constructor | done |]);
        intros _; (split; [done|]); simpl; rewrite ?Hrows.
      * split; [by right | done].
      * split; [done | by intros [?|?]].
    + eexists [_; _]. rewrite <- app_assoc. split_and!; [done | by repeat constructor | done |].
      intros _. split; [done|]. simpl. split; [by left | done].
Qed.

(** X22.  [CommitSegment] inserts only after the lookup of the partial
    object has returned no error.  When the lookup fails, it is the only call
    and its error is in the chain of the error returned.  Otherwise the
    second and last call is the [Exec] of the insert, with the stream id, the
    position as [Part * 2^32 + Segment], the piece id, key, nonce and sizes,
    and the aliases as they are; the result is nil exactly when the insert
    returned no error. *)
Theorem X22_CommitSegment_inserts_after_lookup (opts : SegmentOpts) (ss : @Session Db) :
  is_uint32 (Part (opts_SegmentPosition opts)) ->
  is_uint32 (Segment (opts_SegmentPosition opts)) ->
  Forall (fun v => GoInt.min_int32 <= v <= GoInt.max_int32) (opts_NodeAliases opts) ->
  let object_lookup :=
    driver_Scan driver SelectPartialObject (partial_object_args opts) (fst ss) in
  let lookup_call :=
    mkDriverCall ByQueryRow SelectPartialObject (partial_object_args opts)
                 (fst object_lookup) in
  (forall e : dberror,
     fst object_lookup = Some e ->
     snd (snd (CommitSegment driver opts ss)) = snd ss ++ [lookup_call] /\
     errors_Is (fst (CommitSegment driver opts ss)) e = true) /\
  (fst object_lookup = None ->
   exists insert_error : option dberror,
     snd (snd (CommitSegment driver opts ss)) =
       snd ss ++
       [lookup_call;
        mkDriverCall ByExec InsertSegment
          [ArgUUID (opts_StreamID opts);
           ArgUint64 (Part (opts_SegmentPosition opts) * 2 ^ 32
                      + Segment (opts_SegmentPosition opts));
           ArgBytes (opts_RootPieceID opts);
           ArgBytes (opts_EncryptedKey opts);
           ArgBytes (opts_EncryptedKeyNonce opts);
           ArgInt32 (opts_EncryptedSize opts);
           ArgInt32 (opts_UnencryptedSize opts);
           ArgInt32s (opts_NodeAliases opts)]
          insert_error] /\
     (fst (CommitSegment driver opts ss) = None <-> insert_error = None)).
Proof.
  intros Hpart Hsegment Haliases object_lookup lookup_call.
  subst lookup_call object_lookup.
  pose proof (EncodeSegmentPosition_sum _ _ Hpart Hsegment) as Hcode.
  change (EncodeSegmentPosition (Part (opts_SegmentPosition opts))
                                (Segment (opts_SegmentPosition opts)))
    with (SegmentPosition_Encode (opts_SegmentPosition opts)) in Hcode.
  pose proof (NodeAliases_Encode_map (opts_NodeAliases opts)) as Henc.
  rewrite (map_int32_id _ Haliases) in Henc.
  destruct ss as [d calls0]. unfold CommitSegment, conn_Scan, conn_Exec. simpl.
  rewrite Hcode, Henc.
  destruct (driver_Scan driver SelectPartialObject (partial_object_args opts) d)
    as [[e1|] d1]; simpl.
  - split; [|done]. intros e [= <-]. split; [done | exact (errors_Is_wrapf _ _)].
  - split; [done|]. intros _.
    destruct (driver_Exec driver InsertSegment _ d1) as [[n err2] d2]; simpl.
    exists err2. rewrite <- app_assoc. split; [done|]. apply wrapf_nil.
Qed.

End Migration.

(** A witness of X22: the segment (1, 2) with the aliases 3 and 4 on a
    database that accepts the insert; the position is sent as 2^32 + 2. *)
Lemma X22_witness :
  fst (CommitSegment MigrationScenario.accepting MigrationScenario.segment_1_2
                     MigrationScenario.fresh) = None /\
  map call_args (snd (snd (CommitSegment MigrationScenario.accepting
                                         MigrationScenario.segment_1_2
                                         MigrationScenario.fresh))) =
    [[ArgUUID 7; ArgString "bucket"; ArgBytes "key"; ArgUUID 9];
     [ArgUUID 9; ArgUint64 4294967298; ArgBytes "piece"; ArgBytes "k"; ArgBytes "n";
      ArgInt32 256; ArgInt32 200; ArgInt32s [3; 4]]].
Proof.
  assert (Hpart : is_uint32 (Part (opts_SegmentPosition MigrationScenario.segment_1_2)))
    by (unfold MigrationMetabase.is_uint32; simpl; lia).
  assert (Hsegment : is_uint32 (Segment (opts_SegmentPosition MigrationScenario.segment_1_2)))
    by (unfold MigrationMetabase.is_uint32; simpl; lia).
  assert (Haliases : Forall (fun v => GoInt.min_int32 <= v <= GoInt.max_int32)
                            (opts_NodeAliases MigrationScenario.segment_1_2))
    by (simpl; repeat (apply Forall_cons_2; [by vm_compute|]); apply Forall_nil_2).
  destruct (X22_CommitSegment_inserts_after_lookup MigrationScenario.accepting
              MigrationScenario.segment_1_2 MigrationScenario.fresh
              Hpart Hsegment Haliases) as [_ Hinsert].
  destruct (Hinsert eq_refl) as (insert_error & Hlog & Hnil).
  split; [vm_compute; reflexivity|].
  rewrite Hlog. reflexivity.
Defined.

End MigrationProofs.
